(** * Internship-Allocator: the recommender, the resume parser and the
    student store, embedded from the Python sources.

    Python strings are sequences of Unicode code points; they are lists
    of code points here.  Library calls whose code is not part of the
    repository (str.lower on non-ASCII text, the sentence encoder, float
    arithmetic, DataFrame.sort_values, the PDF reader, the LLM client,
    json.loads, pandas' CSV reader and writer) are parameters, given as
    type classes. *)

From Stdlib Require Import ZArith QArith Qcanon Ascii String DecimalString.
From Stdlib Require SpecFloat.
From stdpp Require Import base decidable numbers list sorting gmap.

Local Open Scope Z_scope.

(** ** Strings and values *)

Definition char : Type := N.
Definition str : Type := list char.

(** A string literal as a Python string. *)
Definition py (s : string) : str :=
  (fun a => N_of_ascii a) <$> list_ascii_of_string s.

Inductive pyval : Type :=
  | PNone
  | PStr (s : str)
  | PInt (z : Z).

(** Python truthiness: [if x]. *)
Definition truthy (v : pyval) : bool :=
  match v with
  | PNone => false
  | PStr s => negb (bool_decide (s = []))
  | PInt z => negb (z =? 0)
  end.

Definition space : char := 32%N.

Definition in_range (lo hi c : N) : bool := ((lo <=? c) && (c <=? hi))%N.

(** The class [a-z0-9, ] of normalize_text's first pattern. *)
Definition allowed (c : char) : bool :=
  in_range 97 122 c || in_range 48 57 c || (c =? 44)%N || (c =? 32)%N.

(** What [\s] matches in a str pattern, and what str.strip removes. *)
Definition is_space (c : char) : bool :=
  in_range 9 13 c || in_range 28 32 c || (c =? 133)%N || (c =? 160)%N
  || (c =? 5760)%N || in_range 8192 8202 c || (c =? 8232)%N
  || (c =? 8233)%N || (c =? 8239)%N || (c =? 8287)%N || (c =? 12288)%N.

(** str.lower is the interpreter's. *)
Class StrLower := str_lower : str → str.

(** [re.sub(p+, " ", s)]: every maximal run of characters of the class
    [p] becomes one space; [in_run] tells that the previous character
    was in the class. *)
Fixpoint sub_runs (p : char → bool) (in_run : bool) (s : str) : str :=
  match s with
  | [] => []
  | c :: s' =>
      if p c then
        if in_run then sub_runs p true s' else space :: sub_runs p true s'
      else c :: sub_runs p false s'
  end.

Definition re_sub_runs (p : char → bool) (s : str) : str := sub_runs p false s.

Fixpoint lstrip (s : str) : str :=
  match s with
  | [] => []
  | c :: s' => if is_space c then lstrip s' else s
  end.

Fixpoint rstrip (s : str) : str :=
  match s with
  | [] => []
  | c :: s' =>
      match rstrip s' with
      | [] => if is_space c then [] else [c]
      | r => c :: r
      end
  end.

Definition strip (s : str) : str := rstrip (lstrip s).

Section Text.
Context {L : StrLower}.

Definition normalize_text (v : pyval) : str :=
  match v with
  | PStr s =>
      let s := str_lower s in
      let s := re_sub_runs (λ c, negb (allowed c)) s in
      strip (re_sub_runs is_space s)
  | _ => []
  end.

(** [c] is one of [,;\n]. *)
Definition is_delim (c : char) : bool :=
  ((c =? 44) || (c =? 59) || (c =? 10))%N.

Definition and_word : str := py " and ".

Definition starts_with (p s : str) : bool := bool_decide (take (length p) s = p).

(** [re.split(r"[,;\n]| and ", text)]: [skip] counts the characters of
    a matched [" and "] still to pass over, [cur] is the piece being
    read, reversed. *)
Fixpoint re_split_aux (skip : nat) (cur : str) (s : str) : list str :=
  match s with
  | [] => [reverse cur]
  | c :: s' =>
      match skip with
      | S k => re_split_aux k cur s'
      | O =>
          if is_delim c then reverse cur :: re_split_aux 0 [] s'
          else if starts_with and_word s then reverse cur :: re_split_aux 4 [] s'
          else re_split_aux 0 (c :: cur) s'
      end
  end.

Definition re_split (s : str) : list str := re_split_aux 0 [] s.

(** [list(dict.fromkeys(l))]: first occurrences, in order. *)
Fixpoint fromkeys_aux (seen : list str) (l : list str) : list str :=
  match l with
  | [] => []
  | x :: l' =>
      if bool_decide (x ∈ seen) then fromkeys_aux seen l'
      else x :: fromkeys_aux (x :: seen) l'
  end.

Definition fromkeys (l : list str) : list str := fromkeys_aux [] l.

Definition parse_skills (text : pyval) : list str :=
  let text := normalize_text text in
  let parts := re_split text in
  let skills := strip <$> filter (λ p, strip p ≠ []) parts in
  fromkeys skills.

(** The quotient of two lengths is the exact rational; Python rounds
    it to a double, and 0 and 1 are doubles. *)
Definition jaccard_score (list1 list2 : list pyval) : Qc :=
  let s1 : gset str := list_to_set (normalize_text <$> filter (λ x, truthy x = true) list1) in
  let s2 : gset str := list_to_set (normalize_text <$> filter (λ x, truthy x = true) list2) in
  if bool_decide (s1 = ∅) && bool_decide (s2 = ∅) then 0%Qc
  else if bool_decide (s1 ∪ s2 = ∅) then 0%Qc
  else (Qc_of_Z (Z.of_nat (size (s1 ∩ s2))) / Qc_of_Z (Z.of_nat (size (s1 ∪ s2))))%Qc.
End Text.

(** ** Numbers

    Scores are IEEE floats, produced by NumPy.  Nothing below depends on
    how they round: the arithmetic is a parameter.  [of_Qc q] is the
    float nearest to [q], [fsum] is np.add.reduce, [fdot] is np.dot on
    two vectors, [feq0 x] is [x == 0] and [fle x y] is [x <= y], false
    as soon as one side is NaN. *)
Class FloatOps (F : Type) := {
  of_Qc : Qc → F;
  fadd : F → F → F;
  fmul : F → F → F;
  fdiv : F → F → F;
  fsqrt : F → F;
  fsum : list F → F;
  fdot : list F → list F → F;
  feq0 : F → bool;
  fle : F → F → bool;
}.

(** SentenceTransformer.encode, one vector per text. *)
Class Encoder (F : Type) := encode1 : str → list F.

Section Embeddings.
Context {F : Type} {FO : FloatOps F} {E : Encoder F}.

Definition encode (texts : list str) : list (list F) := encode1 <$> texts.

(** [np.linalg.norm(embs, axis=1, keepdims=True)]. *)
Definition row_norms (embs : list (list F)) : list F :=
  (λ row, fsqrt (fsum ((λ x, fmul x x) <$> row))) <$> embs.

(** [norms[norms == 0] = 1.0]. *)
Definition fix_zero_norms (norms : list F) : list F :=
  (λ n, if feq0 n then of_Qc 1 else n) <$> norms.

(** [embs / norms], a column of norms broadcast along the rows. *)
Definition div_rows (embs : list (list F)) (norms : list F) : list (list F) :=
  zip_with (λ row n, (λ x, fdiv x n) <$> row) embs norms.

Definition _normalize_embeddings (embs : list (list F)) : list (list F) :=
  let norms := row_norms embs in
  let norms := fix_zero_norms norms in
  div_rows embs norms.
End Embeddings.

(** ** The catalog *)

(** A row of companies.csv. *)
Record company : Type := Company {
  c_CompanyName : pyval;
  c_PostedRole : pyval;
  c_Industry : pyval;
  c_Sector : pyval;
  c_Location : pyval;
  c_SkillsRequired : pyval;
  c_Stipend : pyval;
}.

(** A row of [self.companies]: the columns of the file and the two
    derived ones. *)
Record row : Type := Row {
  CompanyName : pyval;
  PostedRole : pyval;
  Industry : pyval;
  Sector : pyval;
  Location : pyval;
  SkillsRequired : pyval;
  Stipend : pyval;
  combined_text : str;
  IsGovernment : bool;
}.

(** [fillna("")]. *)
Definition fillna (v : pyval) : pyval :=
  match v with
  | PNone => PStr []
  | _ => v
  end.

Definition str_of_Z (z : Z) : str :=
  py (DecimalString.NilZero.string_of_int (Z.to_int z)).

(** [str(v)], also [astype(str)] and an f-string field. *)
Definition py_str (v : pyval) : str :=
  match v with
  | PNone => py "None"
  | PStr s => s
  | PInt z => str_of_Z z
  end.

(** [p in s] on strings. *)
Fixpoint is_substring (p s : str) : bool :=
  starts_with p s ||
  match s with
  | [] => false
  | _ :: s' => is_substring p s'
  end.

Definition gov_keywords : list str :=
  py <$> ["ngo"; "gov"; "government"; "public sector"; "psu"; "co-op";
          "cooperative"; "council"; "trust"; "rural development";
          "community development"]%string.

(** [DataFrame.head(n)]: the first [n] rows, and for a negative [n] all
    rows but the last [-n]. *)
Definition head {A} (n : Z) (l : list A) : list A :=
  if 0 <=? n then take (Z.to_nat n) l
  else take (length l - Z.to_nat (- n))%nat l.

(** [sort_values('score', ascending=False)] on rows paired with their
    score. *)
Class SortValues (F : Type) := sort_values_desc : list (row * F) → list (row * F).

Record weights (F : Type) : Type := Weights {
  w_embed : F;
  w_jaccard : F;
  w_location : F;
  w_gov : F;
}.
Arguments Weights {F}.
Arguments w_embed {F}.
Arguments w_jaccard {F}.
Arguments w_location {F}.
Arguments w_gov {F}.

(** The attributes of a Recommender. *)
Record Recommender (F : Type) : Type := MkRecommender {
  companies : list row;
  embeddings : list (list F);
}.
Arguments MkRecommender {F}.
Arguments companies {F}.
Arguments embeddings {F}.

Section Recommend.
Context {L : StrLower} {F : Type} {FO : FloatOps F} {E : Encoder F}
        {SV : SortValues F}.

Definition detect_gov (name sector : pyval) : bool :=
  let t := str_lower (py_str name ++ py " " ++ py_str sector) in
  existsb (λ k, is_substring k t) gov_keywords.

Definition make_row (c : company) : row :=
  let name := fillna (c_CompanyName c) in
  let role := fillna (c_PostedRole c) in
  let industry := fillna (c_Industry c) in
  let sector := fillna (c_Sector c) in
  let skills := fillna (c_SkillsRequired c) in
  {| CompanyName := name;
     PostedRole := role;
     Industry := industry;
     Sector := sector;
     Location := fillna (c_Location c);
     SkillsRequired := skills;
     Stipend := fillna (c_Stipend c);
     combined_text := py_str skills ++ py " " ++ py_str role ++ py " " ++ py_str industry;
     IsGovernment := detect_gov name sector |}.

(** [Recommender.__init__]. *)
Definition init (companies_df : list company) : Recommender F :=
  let rows := make_row <$> companies_df in
  let texts := (λ r, normalize_text (PStr (combined_text r))) <$> rows in
  let emb := encode texts in
  {| companies := rows; embeddings := _normalize_embeddings emb |}.

Definition default_weights : weights F :=
  {| w_embed := of_Qc (Q2Qc (7 # 10));
     w_jaccard := of_Qc (Q2Qc (2 # 10));
     w_location := of_Qc (Q2Qc (5 # 100));
     w_gov := of_Qc (Q2Qc (5 # 100)) |}.

(** The similarity column: [np.dot(self.embeddings, cand_emb)]. *)
Definition similarity (self : Recommender F) (candidate_text : pyval) : list F :=
  let cand_emb := encode [normalize_text candidate_text] in
  let cand_emb := default [] (_normalize_embeddings cand_emb !! 0%nat) in
  (λ e, fdot e cand_emb) <$> embeddings self.

Definition jaccard_column (self : Recommender F) (candidate_skills : pyval) : list Qc :=
  (λ r, jaccard_score (PStr <$> parse_skills candidate_skills)
                      (PStr <$> parse_skills (SkillsRequired r)))
  <$> companies self.

Definition location_bonus (self : Recommender F) (candidate_location_pref : pyval) : list Qc :=
  if truthy candidate_location_pref then
    let loc := normalize_text candidate_location_pref in
    (λ r, if negb (bool_decide (loc = [])) && is_substring loc (normalize_text (Location r))
          then 1%Qc else 0%Qc) <$> companies self
  else replicate (length (companies self)) 0%Qc.

Definition gov_bonus (self : Recommender F) (is_rural : bool) : list Qc :=
  if is_rural then
    (λ r, if IsGovernment r then 1%Qc else 0%Qc) <$> companies self
  else replicate (length (companies self)) 0%Qc.

(** [w * column], elementwise. *)
Definition scale (w : F) (col : list F) : list F := fmul w <$> col.

Definition final_score (self : Recommender F) (candidate_text candidate_skills
    candidate_location_pref : pyval) (is_rural : bool) (w : weights F) : list F :=
  let sim := similarity self candidate_text in
  let jaccard := of_Qc <$> jaccard_column self candidate_skills in
  let loc := of_Qc <$> location_bonus self candidate_location_pref in
  let gov := of_Qc <$> gov_bonus self is_rural in
  zip_with fadd
    (zip_with fadd
      (zip_with fadd (scale (w_embed w) sim) (scale (w_jaccard w) jaccard))
      (scale (w_location w) loc))
    (scale (w_gov w) gov).

(** [Recommender.recommend]; a record of the result is a row with its
    score. *)
Definition recommend (self : Recommender F) (candidate_text candidate_skills
    candidate_location_pref : pyval) (is_rural : bool) (top_k : Z)
    (w : weights F) : list (row * F) :=
  let score := final_score self candidate_text candidate_skills
                 candidate_location_pref is_rural w in
  let res := zip (companies self) score in
  head top_k (sort_values_desc res).
End Recommend.

(** ** The recommender on a store of objects

    DataFrames and arrays are mutable objects.  The store maps a
    reference to the object it holds; a call that builds a new object
    allocates, an assignment into an object writes in place.  A
    computation that ends in [None] has raised. *)

Inductive obj (F : Type) : Type :=
  | OFrame (rows : list row) (score : option (list F))
  | OMatrix (a : list (list F))
  | OVec (v : list F).
Arguments OFrame {F}.
Arguments OMatrix {F}.
Arguments OVec {F}.

Abbreviation heap F := (gmap positive (obj F)).

Definition M (F A : Type) : Type := heap F → option (A * heap F).

(** The references held by a Recommender: [self.companies] and
    [self.embeddings]. *)
Record RecommenderRef : Type := MkRef {
  companies_ref : positive;
  embeddings_ref : positive;
}.

Section Store.
Context {F : Type}.

Definition ret {A} (a : A) : M F A := λ h, Some (a, h).

Definition bind {A B} (m : M F A) (k : A → M F B) : M F B :=
  λ h, match m h with
       | Some (a, h') => k a h'
       | None => None
       end.

Definition raise {A} : M F A := λ _, None.

Definition alloc (o : obj F) : M F positive :=
  λ h, let l := fresh (dom h) in Some (l, <[l:=o]> h).

Definition load (l : positive) : M F (obj F) :=
  λ h, match h !! l with
       | Some o => Some (o, h)
       | None => None
       end.

Definition store (l : positive) (o : obj F) : M F unit :=
  λ h, match h !! l with
       | Some _ => Some ((), <[l:=o]> h)
       | None => None
       end.
End Store.

Notation "x <~ m ;; k" := (bind m (λ x, k))
  (at level 100, m at next level, right associativity).

Section StoreRecommend.
Context {L : StrLower} {F : Type} {FO : FloatOps F} {E : Encoder F}
        {SV : SortValues F}.

Definition load_matrix (l : positive) : M F (list (list F)) :=
  o <~ load l ;;
  match o with
  | OMatrix a => ret a
  | _ => raise
  end.

Definition load_vec (l : positive) : M F (list F) :=
  o <~ load l ;;
  match o with
  | OVec v => ret v
  | _ => raise
  end.

Definition load_frame (l : positive) : M F (list row * option (list F)) :=
  o <~ load l ;;
  match o with
  | OFrame rows score => ret (rows, score)
  | _ => raise
  end.

(** A frame with a score column, as rows paired with their score. *)
Definition load_scored (l : positive) : M F (list (row * F)) :=
  f <~ load_frame l ;;
  match f with
  | (rows, Some score) => ret (zip rows score)
  | _ => raise
  end.

Definition frame_of (l : list (row * F)) : obj F := OFrame (l.*1) (Some (l.*2)).

Definition _normalize_embeddings_m (embs : positive) : M F positive :=
  e <~ load_matrix embs ;;
  norms <~ alloc (OVec (row_norms e)) ;;
  n <~ load_vec norms ;;
  _ <~ store norms (OVec (fix_zero_norms n)) ;;
  e <~ load_matrix embs ;;
  n <~ load_vec norms ;;
  alloc (OMatrix (div_rows e n)).

(** The column of a bonus or of the Jaccard scores, as an array. *)
Definition alloc_column (col : list Qc) : M F positive := alloc (OVec (of_Qc <$> col)).

Definition recommend_m (self : RecommenderRef) (candidate_text candidate_skills
    candidate_location_pref : pyval) (is_rural : bool) (top_k : Z)
    (w : weights F) : M F (list (row * F)) :=
  cand <~ alloc (OMatrix (encode [normalize_text candidate_text])) ;;
  cand <~ _normalize_embeddings_m cand ;;
  cm <~ load_matrix cand ;;
  let cand_emb := default [] (cm !! 0%nat) in
  em <~ load_matrix (embeddings_ref self) ;;
  sim <~ alloc (OVec ((λ e, fdot e cand_emb) <$> em)) ;;
  df <~ load_frame (companies_ref self) ;;
  let this := MkRecommender df.1 em in
  jaccard <~ alloc_column (jaccard_column this candidate_skills) ;;
  location <~ alloc_column (location_bonus this candidate_location_pref) ;;
  gov <~ alloc_column (gov_bonus this is_rural) ;;
  simv <~ load_vec sim ;;
  jv <~ load_vec jaccard ;;
  lv <~ load_vec location ;;
  gv <~ load_vec gov ;;
  final <~ alloc (OVec
    (zip_with fadd
      (zip_with fadd
        (zip_with fadd (scale (w_embed w) simv) (scale (w_jaccard w) jv))
        (scale (w_location w) lv))
      (scale (w_gov w) gv))) ;;
  (* res = self.companies.copy() *)
  df <~ load_frame (companies_ref self) ;;
  res <~ alloc (OFrame df.1 df.2) ;;
  (* res['score'] = final_score *)
  fv <~ load_vec final ;;
  cur <~ load_frame res ;;
  _ <~ (if bool_decide (length fv = length cur.1)
        then store res (OFrame cur.1 (Some fv)) else raise) ;;
  (* res.sort_values('score', ascending=False).head(top_k) *)
  scored <~ load_scored res ;;
  sorted <~ alloc (frame_of (sort_values_desc scored)) ;;
  scored <~ load_scored sorted ;;
  top <~ alloc (frame_of (head top_k scored)) ;;
  load_scored top.
End StoreRecommend.

(** ** Exceptions *)

(** An exception, by the name of its class and its message; all the
    classes that occur derive from Exception. *)
Inductive exn : Type := Exception (class msg : string).

Inductive result (A : Type) : Type :=
  | Ok (a : A)
  | Raise (e : exn).
Arguments Ok {A}.
Arguments Raise {A}.

Definition rbind {A B} (m : result A) (k : A → result B) : result B :=
  match m with
  | Ok a => k a
  | Raise e => Raise e
  end.

(** [try: body / except Exception: handler]. *)
Definition try_except {A} (body : result A) (handler : exn → result A) : result A :=
  match body with
  | Ok a => Ok a
  | Raise e => handler e
  end.

Notation "x <- m ;;; k" := (rbind m (λ x, k))
  (at level 100, m at next level, right associativity).

(** ** resume_parser.py *)

(** A value that json.loads returns; an object is a dict, kept as the
    list of its items in insertion order. *)
#[warnings="-register-all"]
Inductive jval : Type :=
  | JNull
  | JBool (b : bool)
  | JNum (repr : str)
  | JStr (s : str)
  | JList (l : list jval)
  | JDict (d : list (str * jval)).

Definition has_key (k : str) (d : list (str * jval)) : bool :=
  existsb (λ kv, bool_decide (kv.1 = k)) d.

(** [d.setdefault(k, v)]. *)
Definition setdefault (k : str) (v : jval) (d : list (str * jval)) : list (str * jval) :=
  if has_key k d then d else d ++ [(k, v)].

Definition profile_keys : list str :=
  py <$> ["name"; "email"; "education"; "skills"; "sector_interests";
          "location_pref"; "experience"; "projects"]%string.

(** [sep.join(l)]. *)
Fixpoint join (sep : str) (l : list str) : str :=
  match l with
  | [] => []
  | [x] => x
  | x :: l' => x ++ sep ++ join sep l'
  end.

(** The libraries and services the parser calls: PyPDF2 ([pdf_text b]
    is the text of the pages of [b], joined by spaces), the UTF-8
    decoder with errors ignored, whether a Groq client was configured,
    the content of the first choice of a chat completion for a prompt
    ([None] when the message has no content), json.loads, and
    [re.search(pattern, s)], giving group 0 of the match. *)
Class ResumeEnv := {
  pdf_text : list Byte.byte → result str;
  decode_utf8_ignore : list Byte.byte → str;
  groq_client : bool;
  chat_completion : str → result (option str);
  json_loads : str → result jval;
  re_search : string → str → option str;
}.

Fixpoint drop_until (c : char) (s : str) : str :=
  match s with
  | [] => []
  | x :: s' => if (x =? c)%N then s else drop_until c s'
  end.

(** [re.search(r"\{.*\}", raw, re.DOTALL)]: from the first opening
    brace to the last closing brace after it. *)
Definition search_braces (raw : str) : option str :=
  let from_open := drop_until 123%N raw in
  match reverse (drop_until 125%N (reverse from_open)) with
  | [] => None
  | m => Some m
  end.

Definition prompt_head : str :=
  py "
You are a resume parser. Read the resume text and return ONLY a valid JSON object with the exact keys:

name, email, education, skills, sector_interests, location_pref, experience, projects

Rules:
- If a field is not present, set its value to an empty string (" ++ [34; 34]%N ++ py ").
- All fields must be plain text strings (no arrays, no objects).
- For multiple entries (education, skills, experience, projects), return a single string with entries separated by semicolons.
- Do not invent data. Use only what is in the text.
- Return only valid JSON, no extra text, no markdown.

Resume text:
".

Definition fallback_skill_keys : list str :=
  py <$> ["python"; "sql"; "excel"; "pandas"; "numpy"; "machine learning";
          "flutter"; "dart"; "git"; "aws"; "tensorflow"; "react"; "canva"]%string.

Section ResumeParser.
Context {L : StrLower} {RE : ResumeEnv}.

Definition extract_text_from_pdf_bytes (b : list Byte.byte) : result str :=
  try_except (pdf_text b) (λ _, Ok []).

Definition safe_json_from_llm (text : str) : result jval :=
  if negb groq_client then
    Raise (Exception "RuntimeError" "GROQ_API_KEY not set in environment.")
  else
    let cleaned := strip (re_sub_runs is_space text) in
    let prompt := prompt_head ++ cleaned ++ [10%N] in
    content <- chat_completion prompt ;;;
    raw <- match content with
           | Some c => Ok (strip c)
           | None => Raise (Exception "AttributeError" "strip")
           end ;;;
    match search_braces raw with
    | None => Raise (Exception "ValueError" "LLM did not return JSON-like output.")
    | Some json_str =>
        parsed <- try_except (json_loads json_str)
                    (λ _, Raise (Exception "ValueError" "Failed to parse JSON from LLM output")) ;;;
        match parsed with
        | JDict d => Ok (JDict (foldl (λ d k, setdefault k (JStr []) d) d profile_keys))
        | _ => Raise (Exception "AttributeError" "setdefault")
        end
    end.

Definition fallback_extract (text : str) : jval :=
  let t := str_lower text in
  let email := default [] (re_search "[a-z0-9_.+-]+@[a-z0-9-]+\.[a-z0-9-.]+" t) in
  let skills := filter (λ k, is_substring k t = true) fallback_skill_keys in
  let edu :=
    if is_substring (py "b.tech") t || is_substring (py "btech") t then py "B.Tech"
    else if is_substring (py "m.tech") t || is_substring (py "mtech") t then py "M.Tech"
    else if is_substring (py "mba") t then py "MBA"
    else [] in
  let exp := default (py "Fresher") (re_search "(\d+)\s+year" t) in
  JDict [ (py "name", JStr []);
          (py "email", JStr email);
          (py "education", JStr edu);
          (py "skills", JStr (join (py ", ") skills));
          (py "sector_interests", JStr []);
          (py "location_pref", JStr []);
          (py "experience", JStr exp);
          (py "projects", JStr []) ].

Definition parse_resume_with_llm (file_bytes : list Byte.byte) : result jval :=
  text <- try_except
            (text <- extract_text_from_pdf_bytes file_bytes ;;;
             if bool_decide (strip text = []) then Ok (decode_utf8_ignore file_bytes)
             else Ok text)
            (λ _, Ok (decode_utf8_ignore file_bytes)) ;;;
  try_except (safe_json_from_llm text) (λ _, Ok (fallback_extract text)).
End ResumeParser.

(** ** utils.py *)

(** A DataFrame of student profiles: the column labels and, for each
    row, its cells by column; a cell that is missing is NaN. *)
Record dataframe : Type := DataFrame {
  df_columns : list str;
  df_rows : list (gmap str pyval);
}.

(** What [df.to_csv(filepath, index=False)] does: it writes the text of
    the frame to the file and returns, or it raises.  It may raise
    before the file is opened (a directory that is missing, a path that
    cannot be written), which leaves the file as it was, or after (a
    value that cannot be encoded), which leaves the file with what was
    written until then. *)
Inductive write_outcome : Type :=
  | Written (content : list Byte.byte)
  | WriteRaised (e : exn) (left : option (list Byte.byte)).

(** pandas' [read_csv] on the content of a file, and [to_csv] of a frame
    to a path. *)
Class CsvCodec := {
  read_csv : list Byte.byte → result dataframe;
  to_csv : dataframe → string → write_outcome;
}.

(** The files, by path. *)
Abbreviation files := (gmap string (list Byte.byte)).

Global Instance pyval_eq_dec : EqDecision pyval.
Proof. solve_decision. Defined.

(** [record.get(k, None)] on a dict kept as the list of its items. *)
Fixpoint dict_get (k : str) (record : list (str * pyval)) : pyval :=
  match record with
  | [] => PNone
  | (k', v) :: record' => if bool_decide (k' = k) then v else dict_get k record'
  end.

Section Utils.
Context {CC : CsvCodec}.

(** [df[key] = ""] for every key of the record that is not a column. *)
Definition add_missing_columns (keys : list str) (df : dataframe) : dataframe :=
  foldl (λ df key,
           if bool_decide (key ∈ df_columns df) then df
           else {| df_columns := df_columns df ++ [key];
                   df_rows := <[key := PStr []]> <$> df_rows df |})
        df keys.

(** [email in df["email"].values]. *)
Definition email_known (email : pyval) (df : dataframe) : bool :=
  bool_decide (py "email" ∈ df_columns df) &&
  existsb (λ r, bool_decide (r !! py "email" = Some email)) (df_rows df).

(** [df.loc[df["email"] == email, k] = v] for every item of the record. *)
Definition update_rows (email : pyval) (record : list (str * pyval)) (df : dataframe) : dataframe :=
  foldl (λ df kv,
           {| df_columns := df_columns df;
              df_rows := (λ r, if bool_decide (r !! py "email" = Some email)
                               then <[kv.1 := kv.2]> r else r) <$> df_rows df |})
        df record.

(** [pd.concat([df, pd.DataFrame([record])], ignore_index=True)]. *)
Definition append_record (record : list (str * pyval)) (df : dataframe) : dataframe :=
  {| df_columns := df_columns df ++ filter (λ k, k ∉ df_columns df) (fromkeys record.*1);
     df_rows := df_rows df ++ [list_to_map record] |}.

(** The load at the head of save_student_profile. *)
Definition load_students (record : list (str * pyval)) (filepath : string)
    (fs : files) : result dataframe :=
  match fs !! filepath with
  | Some (b :: content) => read_csv (b :: content)
  | _ => Ok {| df_columns := fromkeys record.*1; df_rows := [] |}
  end.

(** save_student_profile: the value returned or the exception raised,
    and the files afterwards. *)
Definition save_student_profile (record : list (str * pyval)) (filepath : string)
    (fs : files) : result (list (str * pyval)) * files :=
  match load_students record filepath fs with
  | Raise e => (Raise e, fs)
  | Ok df =>
      let df := add_missing_columns record.*1 df in
      let email := dict_get (py "email") record in
      if negb (truthy email) then
        (Raise (Exception "ValueError"
                  "Record must contain an 'email' field to identify student."), fs)
      else
        let df := if email_known email df then update_rows email record df
                  else append_record record df in
        match to_csv df filepath with
        | Written content => (Ok record, <[filepath := content]> fs)
        | WriteRaised e None => (Raise e, fs)
        | WriteRaised e (Some content) => (Raise e, <[filepath := content]> fs)
        end
  end.
End Utils.

(** ** What the library sort promises

    In descending order a score [a] may stand before [b] when [b <= a],
    and NaN scores come last. *)
Definition ranks_before {F} {FO : FloatOps F} (a b : F) : bool :=
  fle b a || negb (fle b b).

Definition desc {F} {FO : FloatOps F} (x y : row * F) : Prop :=
  ranks_before x.2 y.2 = true.

(** sort_values reorders the rows, and the scores then descend.  Its
    default kind, quicksort, promises nothing on rows of equal score. *)
Record sort_values_spec {F} {FO : FloatOps F} (SV : SortValues F) : Prop := {
  sort_values_perm : ∀ l, sort_values_desc l ≡ₚ l;
  sort_values_sorted : ∀ l, StronglySorted desc (sort_values_desc l);
}.

(** ** normalize_text, as the specification words it: the words of the
    lowercased text, a word being a maximal run of [a-z0-9,], joined by
    single spaces. *)

Definition word_char (c : char) : bool := allowed c && negb (c =? 32)%N.

(** The word being read at the head of [s], and the pieces after the
    separators that follow. *)
Fixpoint split_words (s : str) : str * list str :=
  match s with
  | [] => ([], [])
  | c :: s' =>
      let '(w, ps) := split_words s' in
      if word_char c then (c :: w, ps) else ([], w :: ps)
  end.

Definition words (s : str) : list str :=
  let '(w, ps) := split_words s in
  filter (λ w, w ≠ []) (w :: ps).

Definition normalize_spec {L : StrLower} (s : str) : str :=
  join [space] (words (str_lower s)).

(** normalize_text as the sentence "strips every character that is not
    a lowercase letter, digit, comma, or space" reads: such characters
    are deleted. *)
Definition normalize_deleting {L : StrLower} (s : str) : str :=
  strip (re_sub_runs is_space (filter (λ c, allowed c = true) (str_lower s))).

(** Words, each led by a space. *)
Definition sp_join (ws : list str) : str := concat (cons space <$> ws).

(** A list of words: none is empty and all are made of [a-z0-9,]. *)
Definition word_list (ws : list str) : Prop :=
  Forall (λ w, w ≠ [] ∧ Forall (λ c, word_char c = true) w) ws.

(** What the proofs use of str.lower: it leaves a text of [a-z0-9, ]
    as it is. *)
Definition lower_fixes_allowed (L : StrLower) : Prop :=
  ∀ s, Forall (λ c, allowed c = true) s → str_lower s = s.

(** ** Concrete parameters, for running the definitions *)

(** str.lower on ASCII text. *)
Definition ascii_lower_char (c : char) : char :=
  if in_range 65 90 c then (c + 32)%N else c.

Definition ascii_lower : StrLower := λ s, ascii_lower_char <$> s.

(** Exact rational arithmetic in place of floats; the square root is
    exact on squares. *)
Definition Qc_sqrt (q : Qc) : Qc :=
  Q2Qc (Z.sqrt (Qnum q) # Pos.sqrt (Qden q)).

Definition exact_floats : FloatOps Qc := {|
  of_Qc := id;
  fadd := Qcplus;
  fmul := Qcmult;
  fdiv := Qcdiv;
  fsqrt := Qc_sqrt;
  fsum := foldr Qcplus 0%Qc;
  fdot := λ u v, foldr Qcplus 0%Qc (zip_with Qcmult u v);
  feq0 := λ x, bool_decide (x = 0%Qc);
  fle := λ x y, bool_decide (x ≤ y)%Qc;
|}.

(** IEEE 754 binary floats, as the Standard Library specifies them,
    with [prec] bits of precision and exponents below [emax]: binary64,
    NumPy's float64, and binary32, the float32 of the encoder's vectors.
    Every operation rounds to nearest, ties to even.  [of_Qc q] is the
    quotient of the floats nearest to the numerator and to the
    denominator of [q]; sums run from left to right, which is NumPy's
    order on fewer than eight numbers. *)
Definition ieee_of_Z (prec emax z : Z) : SpecFloat.spec_float :=
  SpecFloat.binary_normalize prec emax z 0 false.

Definition ieee (prec emax : Z) : FloatOps SpecFloat.spec_float := {|
  of_Qc := λ q, SpecFloat.SFdiv prec emax (ieee_of_Z prec emax (Qnum q))
                  (ieee_of_Z prec emax (Z.pos (Qden q)));
  fadd := SpecFloat.SFadd prec emax;
  fmul := SpecFloat.SFmul prec emax;
  fdiv := SpecFloat.SFdiv prec emax;
  fsqrt := SpecFloat.SFsqrt prec emax;
  fsum := foldl (SpecFloat.SFadd prec emax) (SpecFloat.S754_zero false);
  fdot := λ u v, foldl (SpecFloat.SFadd prec emax) (SpecFloat.S754_zero false)
                   (zip_with (SpecFloat.SFmul prec emax) u v);
  feq0 := λ x, SpecFloat.SFeqb x (SpecFloat.S754_zero false);
  fle := SpecFloat.SFleb;
|}.

Definition binary64 : FloatOps SpecFloat.spec_float := ieee 53 1024.
Definition binary32 : FloatOps SpecFloat.spec_float := ieee 24 128.

(** The L2 norm of one row, as np.linalg.norm computes it, and whether
    it is 1 within a factor of two. *)
Definition l2_norm {F} {FO : FloatOps F} (row : list F) : F :=
  fsqrt (fsum ((λ x, fmul x x) <$> row)).

Definition roughly_unit {F} {FO : FloatOps F} (row : list F) : bool :=
  fle (of_Qc (Q2Qc (1 # 2))) (l2_norm row) && fle (l2_norm row) (of_Qc (Qc_of_Z 2)).

(** An encoder of two coordinates: the length of the text and 1. *)
Definition length_encoder : Encoder Qc :=
  λ s, [Qc_of_Z (Z.of_nat (length s)); 1%Qc].

Section Sorts.
Context {F : Type} {FO : FloatOps F}.

(** Insertion before the first row that does not outrank [x]: rows
    of equal score keep their order. *)
Fixpoint insert_first (x : row * F) (l : list (row * F)) : list (row * F) :=
  match l with
  | [] => [x]
  | y :: l' =>
      if ranks_before x.2 y.2 then x :: l else y :: insert_first x l'
  end.

Definition stable_sort : SortValues F := foldr insert_first [].
End Sorts.

(** A reader that refuses a file that is not UTF-8, as pandas does, and
    otherwise finds an empty table; a writer of one byte, in a file
    system that has no directory: it cannot open a path with a slash. *)
Definition strict_codec : CsvCodec := {|
  read_csv := λ b,
    if existsb (Byte.eqb Byte.xff) b
    then Raise (Exception "UnicodeDecodeError" "'utf-8' codec can't decode byte 0xff")
    else Ok {| df_columns := []; df_rows := [] |};
  to_csv := λ _ filepath,
    if existsb (Ascii.eqb "/") (list_ascii_of_string filepath)
    then WriteRaised (Exception "OSError" "Cannot save file into a non-existent directory")
           None
    else Written [Byte.x0a];
|}.

Definition sample_company (name : string) : company :=
  {| c_CompanyName := PStr (py name);
     c_PostedRole := PStr (py "Data Analyst");
     c_Industry := PStr (py "Software");
     c_Sector := PStr (py "IT");
     c_Location := PStr (py "Pune, Maharashtra");
     c_SkillsRequired := PStr (py "python, excel");
     c_Stipend := PInt 10000 |}.

Definition sample_catalog : list company :=
  [sample_company "Acme"; sample_company "Rural Development Trust"].

(** A recommender over the sample catalog, and a call of recommend on
    it, with the default weights. *)
Definition sample_recommender : Recommender Qc :=
  init (L:=ascii_lower) (FO:=exact_floats) (E:=length_encoder) sample_catalog.

Definition sample_recommend (SV : SortValues Qc) (is_rural : bool) (top_k : Z)
    : list (row * Qc) :=
  recommend (L:=ascii_lower) (FO:=exact_floats) (E:=length_encoder) (SV:=SV)
    sample_recommender (PStr (py "python dev")) (PStr (py "Python, SQL"))
    (PStr (py "pune")) is_rural top_k (default_weights (FO:=exact_floats)).

(** [wp m Q h]: from the store [h] the computation [m] returns, with a
    value and a store that satisfy [Q]. *)
Definition wp {F A} (m : M F A) (Q : A → heap F → Prop) (h : heap F) : Prop :=
  ∃ a h', m h = Some (a, h') ∧ Q a h'.

(** A store that holds the sample recommender: its table at 1 and its
    matrix at 2. *)
Definition sample_self : RecommenderRef := {| companies_ref := 1; embeddings_ref := 2 |}.

Definition sample_store : heap Qc :=
  <[1%positive := OFrame (companies sample_recommender) None]>
    (<[2%positive := OMatrix (embeddings sample_recommender)]> ∅).

(** Services that all fail: no PDF text, no Groq client. *)
Definition offline : ResumeEnv := {|
  pdf_text := λ _, Raise (Exception "PdfReadError" "EOF marker not found");
  decode_utf8_ignore := λ b, (λ x, N_of_ascii (ascii_of_byte x)) <$> b;
  groq_client := false;
  chat_completion := λ _, Raise (Exception "APIConnectionError" "Connection error.");
  json_loads := λ _, Raise (Exception "JSONDecodeError" "Expecting value");
  re_search := λ _ _, None;
|}.

Definition sample_record : list (str * pyval) :=
  [(py "name", PStr (py "Asha")); (py "email", PStr (py "asha@example.com"))].

Definition sample_record_no_email : list (str * pyval) :=
  [(py "name", PStr (py "Asha")); (py "email", PStr [])].

(** A students.csv that is not UTF-8. *)
Definition unreadable_files : files := {[ "students.csv"%string := [Byte.xff] ]}.

(** ** Notions for the further properties *)

(** No two spaces stand side by side. *)
Fixpoint single_spaced (s : str) : bool :=
  match s with
  | c1 :: s' =>
      match s' with
      | c2 :: _ => negb ((c1 =? space)%N && (c2 =? space)%N) && single_spaced s'
      | [] => true
      end
  | [] => true
  end.

(** A lowercase letter, a digit or a space. *)
Definition letter_digit_space (c : char) : bool :=
  in_range 97 122 c || in_range 48 57 c || (c =? 32)%N.

(** The set that jaccard_score builds from a list. *)
Definition skill_set {L : StrLower} (l : list pyval) : gset str :=
  list_to_set (normalize_text <$> filter (λ x, truthy x = true) l).

(** The text that parse_resume_with_llm works on: the text of the PDF,
    or the bytes decoded when the reader failed or found only
    whitespace. *)
Definition resume_text {RE : ResumeEnv} (file_bytes : list Byte.byte) : str :=
  match pdf_text file_bytes with
  | Ok t => if bool_decide (strip t = []) then decode_utf8_ignore file_bytes else t
  | Raise _ => decode_utf8_ignore file_bytes
  end.

(** The prompt that safe_json_from_llm sends for a text. *)
Definition prompt_of (text : str) : str :=
  prompt_head ++ strip (re_sub_runs is_space text) ++ [10%N].

(** The frame that save_student_profile writes for a record, from the
    frame that it loaded. *)
Definition upsert (record : list (str * pyval)) (df : dataframe) : dataframe :=
  let df := add_missing_columns record.*1 df in
  let email := dict_get (py "email") record in
  if email_known email df then update_rows email record df
  else append_record record df.

(** What [df.loc[df["email"] == email, k] = v] does to one row. *)
Definition update_row (email : pyval) (r : gmap str pyval) (kv : str * pyval)
    : gmap str pyval :=
  if bool_decide (r !! py "email" = Some email) then <[kv.1 := kv.2]> r else r.

(** ** app.py *)

(** build_student_record_from_inputs; [now] is
    [datetime.utcnow().isoformat()], and [bool(is_rural)] is kept as the
    integer that a Python bool is, 1 for True and 0 for False. *)
Definition build_student_record_from_inputs (name email education skills
    sector_interests location_pref experience : str) (is_rural : bool)
    (source now : str) : list (str * pyval) :=
  [ (py "name", PStr (strip name));
    (py "email", PStr (strip email));
    (py "education", PStr (strip education));
    (py "skills", PStr (strip skills));
    (py "sector_interests", PStr (strip sector_interests));
    (py "location_pref", PStr (strip location_pref));
    (py "experience", PStr (strip experience));
    (py "is_rural", PInt (if is_rural then 1 else 0));
    (py "source", PStr source);
    (py "timestamp", PStr now) ].

(** The frame of one student, a codec that reads it from every file,
    and the record of another student. *)
Definition sample_frame : dataframe :=
  {| df_columns := sample_record.*1; df_rows := [list_to_map sample_record] |}.

Definition fixed_codec : CsvCodec := {|
  read_csv := λ _, Ok sample_frame;
  to_csv := λ _ _, Written [Byte.x0a];
|}.

Definition other_record : list (str * pyval) :=
  [(py "name", PStr (py "Ravi")); (py "email", PStr (py "ravi@example.com"))].

Definition one_student_file : files := {[ "students.csv"%string := [Byte.x0a] ]}.

(** Services that answer: a Groq client whose model returns an object
    with a name alone. *)
Definition online : ResumeEnv := {|
  pdf_text := λ _, Ok (py "Asha, B.Tech, Python");
  decode_utf8_ignore := λ b, (λ x, N_of_ascii (ascii_of_byte x)) <$> b;
  groq_client := true;
  chat_completion := λ _, Ok (Some (py "Here it is: {} "));
  json_loads := λ _, Ok (JDict [(py "name", JStr (py "Asha"))]);
  re_search := λ _ _, None;
|}.

(** A Groq client whose model answers with braces that json.loads
    refuses. *)
Definition garbled : ResumeEnv := {|
  pdf_text := λ _, Ok (py "Asha, B.Tech, Python");
  decode_utf8_ignore := λ b, (λ x, N_of_ascii (ascii_of_byte x)) <$> b;
  groq_client := true;
  chat_completion := λ _, Ok (Some (py "{name: Asha}"));
  json_loads := λ _, Raise (Exception "JSONDecodeError"
                              "Expecting property name enclosed in double quotes");
  re_search := λ _ _, None;
|}.

(** * Properties *)

(** ** Characters *)

Ltac char_props :=
  unfold word_char, allowed, is_space, in_range, space, char in *;
  repeat progress
    (rewrite ?orb_true_iff, ?andb_true_iff, ?negb_true_iff, ?orb_false_iff,
       ?andb_false_iff, ?negb_false_iff, ?N.leb_le, ?N.eqb_eq, ?N.leb_gt,
       ?N.eqb_neq in *).

Lemma word_char_allowed c : word_char c = true → allowed c = true.
Proof. unfold word_char. rewrite andb_true_iff. tauto. Qed.

Lemma word_char_not_space c : word_char c = true → is_space c = false.
Proof.
  intros H. destruct (is_space c) eqn:E; [|done].
  exfalso. char_props. lia.
Qed.

Lemma allowed_not_word c : allowed c = true → word_char c = false → c = space.
Proof. intros H1 H2. char_props. lia. Qed.

Lemma not_allowed_not_word c : allowed c = false → word_char c = false.
Proof. unfold word_char. intros ->. done. Qed.

(** ** The two substitutions of normalize_text are one *)

Lemma sub_runs_fuse s : ∀ b1 b2, (b1 = true → b2 = true) →
  sub_runs is_space b2 (sub_runs (λ c, negb (allowed c)) b1 s)
  = sub_runs (λ c, negb (word_char c)) b2 s.
Proof.
  induction s as [|c s IH]; intros b1 b2 Hb; [done|].
  simpl. destruct (allowed c) eqn:Ha; simpl.
  - destruct (word_char c) eqn:Hw; simpl.
    + rewrite (word_char_not_space c Hw). f_equal. by apply IH.
    + rewrite (allowed_not_word c Ha Hw). simpl.
      destruct b2; rewrite IH; done.
  - rewrite (not_allowed_not_word c Ha). simpl.
    destruct b1; simpl.
    + rewrite (Hb eq_refl). by apply IH.
    + destruct b2; rewrite IH; done.
Qed.

Lemma lstrip_sub_runs_true s :
  lstrip (sub_runs (λ c, negb (word_char c)) true s)
  = sub_runs (λ c, negb (word_char c)) true s.
Proof.
  induction s as [|c s IH]; [done|].
  simpl. destruct (word_char c) eqn:Hw; simpl; [|done].
  by rewrite (word_char_not_space c Hw).
Qed.

Lemma lstrip_sub_runs_false s :
  lstrip (sub_runs (λ c, negb (word_char c)) false s)
  = sub_runs (λ c, negb (word_char c)) true s.
Proof.
  destruct s as [|c s]; [done|].
  simpl. destruct (word_char c) eqn:Hw; simpl.
  - by rewrite (word_char_not_space c Hw).
  - apply lstrip_sub_runs_true.
Qed.

Lemma rstrip_cons_word c s :
  is_space c = false → rstrip (c :: s) = c :: rstrip s.
Proof. intros H. simpl. rewrite H. by destruct (rstrip s). Qed.

Lemma join_sp_join w ws : join [space] (w :: ws) = w ++ sp_join ws.
Proof.
  revert w. induction ws as [|w' ws IH]; intros w.
  - simpl. by rewrite app_nil_r.
  - change (join [space] (w :: w' :: ws)) with (w ++ [space] ++ join [space] (w' :: ws)).
    by rewrite IH.
Qed.

Lemma rstrip_sub_runs s :
  rstrip (sub_runs (λ c, negb (word_char c)) false s)
    = (split_words s).1 ++ sp_join (filter (λ w, w ≠ []) (split_words s).2)
  ∧ rstrip (sub_runs (λ c, negb (word_char c)) true s)
    = join [space] (filter (λ w, w ≠ []) ((split_words s).1 :: (split_words s).2)).
Proof.
  induction s as [|c s [IHf IHt]]; [done|].
  cbn [sub_runs split_words].
  destruct (split_words s) as [w ps] eqn:Hs. cbn [fst snd] in *.
  destruct (word_char c) eqn:Hw; cbn [negb fst snd].
  - rewrite (rstrip_cons_word c _ (word_char_not_space c Hw)), IHf.
    split; [done|].
    rewrite filter_cons_True by done. by rewrite join_sp_join.
  - split; [|by rewrite filter_cons_False by (intros H; by apply H)].
    change (rstrip (space :: ?x)) with
      (match rstrip x with [] => [] | r => space :: r end).
    rewrite IHt.
    destruct (filter (λ w0, w0 ≠ []) (w :: ps)) as [|t ts] eqn:Hf; [done|].
    rewrite join_sp_join.
    assert (t ≠ []) as Ht.
    { assert (t ∈ filter (λ w0, w0 ≠ []) (w :: ps)) as Hin by (rewrite Hf; left).
      apply list_elem_of_filter in Hin. tauto. }
    destruct t as [|x t]; [done|]. done.
Qed.

Lemma split_words_chars s :
  Forall (Forall (λ c, word_char c = true)) ((split_words s).1 :: (split_words s).2).
Proof.
  induction s as [|c s IH]; [by repeat constructor|].
  cbn [split_words]. destruct (split_words s) as [w ps]. cbn [fst snd] in *.
  inversion_clear IH as [|?? Hw Hps].
  destruct (word_char c) eqn:Hc; cbn [fst snd]; repeat constructor; done.
Qed.

Lemma words_word_list s : word_list (words s).
Proof.
  unfold words, word_list.
  pose proof (split_words_chars s) as H. destruct (split_words s) as [w ps].
  cbn [fst snd] in H. apply Forall_forall. intros x Hx.
  apply list_elem_of_filter in Hx as [Hne Hx].
  split; [done|]. by eapply Forall_forall in H.
Qed.

Lemma split_words_app t x :
  Forall (λ c, word_char c = true) t →
  split_words (t ++ x) = (t ++ (split_words x).1, (split_words x).2).
Proof.
  induction 1 as [|c t Hc Ht IH]; [simpl; by destruct (split_words x)|].
  cbn [app split_words]. rewrite IH, Hc. done.
Qed.

Lemma split_words_sp_join ws : word_list ws → split_words (sp_join ws) = ([], ws).
Proof.
  induction 1 as [|w ws [Hne Hw] Hws IH]; [done|].
  unfold sp_join. cbn [fmap list_fmap concat app split_words].
  fold (sp_join ws). rewrite (split_words_app _ _ Hw), IH. cbn [fst snd].
  by rewrite app_nil_r.
Qed.

Lemma filter_nonempty_words ws : word_list ws → filter (λ w, w ≠ []) ws = ws.
Proof.
  induction 1 as [|w ws [Hne Hw] Hws IH]; [done|].
  rewrite filter_cons_True by done. f_equal. exact IH.
Qed.

Lemma words_join ws : word_list ws → words (join [space] ws) = ws.
Proof.
  intros Hws. destruct Hws as [|w ws [Hne Hw] Hws]; [done|].
  rewrite join_sp_join. unfold words.
  rewrite (split_words_app _ _ Hw), (split_words_sp_join _ Hws).
  cbn [fst snd]. rewrite app_nil_r.
  rewrite filter_cons_True by done. f_equal.
  by apply filter_nonempty_words.
Qed.

Lemma sp_join_allowed ws : word_list ws → Forall (λ c, allowed c = true) (sp_join ws).
Proof.
  induction 1 as [|w ws [Hne Hw] Hws IH]; [constructor|].
  unfold sp_join. cbn [fmap list_fmap concat]. fold (sp_join ws).
  constructor; [done|]. apply Forall_app. split; [|done].
  eapply Forall_impl; [exact Hw|]. apply word_char_allowed.
Qed.

Lemma join_allowed ws : word_list ws → Forall (λ c, allowed c = true) (join [space] ws).
Proof.
  intros Hws. destruct Hws as [|w ws [Hne Hw] Hws]; [constructor|].
  rewrite join_sp_join. apply Forall_app. split.
  - eapply Forall_impl; [exact Hw|]. apply word_char_allowed.
  - by apply sp_join_allowed.
Qed.

Lemma ascii_lower_fixes_allowed : lower_fixes_allowed ascii_lower.
Proof.
  intros s Hs. unfold str_lower, ascii_lower.
  induction Hs as [|c s Hc Hs IH]; [done|].
  cbn [fmap list_fmap]. f_equal; [|exact IH].
  unfold ascii_lower_char. destruct (in_range 65 90 c) eqn:E; [|done].
  exfalso. char_props. lia.
Qed.

Lemma split_words_separators d x :
  d ≠ [] → Forall (λ c, word_char c = false) d →
  ∃ ps, split_words (d ++ x) = ([], ps)
        ∧ filter (λ w, w ≠ []) ps
          = filter (λ w, w ≠ []) ((split_words x).1 :: (split_words x).2).
Proof.
  intros Hd Hc. induction Hc as [|c d Hc Hcd IH]; [done|].
  cbn [app split_words]. rewrite Hc.
  destruct d as [|c' d].
  - cbn [app]. destruct (split_words x) as [w ps]. by exists (w :: ps).
  - destruct IH as (ps & Hps & Hf); [done|]. rewrite Hps.
    exists ([] :: ps). split; [done|].
    by rewrite filter_cons_False by (intros H; by apply H).
Qed.

(** A run of separators between two words. *)
Lemma words_between u d w :
  u ≠ [] → d ≠ [] → w ≠ [] →
  Forall (λ c, word_char c = true) u →
  Forall (λ c, word_char c = false) d →
  Forall (λ c, word_char c = true) w →
  words (u ++ d ++ w) = [u; w].
Proof.
  intros Hu Hd Hw Hcu Hcd Hcw. unfold words.
  rewrite (split_words_app _ _ Hcu).
  destruct (split_words_separators d w Hd Hcd) as (ps & -> & Hps).
  cbn [fst snd]. rewrite app_nil_r, filter_cons_True by done. f_equal.
  etrans; [exact Hps|].
  pose proof (split_words_app w [] Hcw) as Hsw.
  rewrite app_nil_r in Hsw. rewrite Hsw. cbn [split_words fst snd].
  rewrite app_nil_r. by rewrite filter_cons_True by done.
Qed.

Section TextProperties.
Context {L : StrLower}.

(** normalize_text computes what the specification describes, once
    "strips" is read as "makes a separator of". *)
Lemma normalize_text_spec s : normalize_text (PStr s) = normalize_spec s.
Proof.
  unfold normalize_text, normalize_spec, re_sub_runs, strip, words.
  rewrite sub_runs_fuse by done.
  rewrite lstrip_sub_runs_false.
  rewrite (proj2 (rstrip_sub_runs _)).
  by destruct (split_words (str_lower s)).
Qed.

Lemma normalize_text_words v : ∃ ws, word_list ws ∧ normalize_text v = join [space] ws.
Proof.
  destruct v as [|s|z]; [by exists []; split; [constructor|]| |by exists []; split; [constructor|]].
  exists (words (str_lower s)). split; [apply words_word_list|].
  apply normalize_text_spec.
Qed.

(** C3: normalize_text is idempotent, and every character of its
    result is a lowercase letter, a digit, a comma or a space, for
    every input value, string or not. *)
Theorem normalize_text_idempotent_charset (v : pyval) :
  lower_fixes_allowed L →
  normalize_text (PStr (normalize_text v)) = normalize_text v
  ∧ Forall (λ c, allowed c = true) (normalize_text v).
Proof.
  intros HL. destruct (normalize_text_words v) as (ws & Hws & ->).
  split; [|by apply join_allowed].
  rewrite normalize_text_spec. unfold normalize_spec.
  rewrite (HL _ (join_allowed _ Hws)). by rewrite words_join.
Qed.

(** C5, amended: normalize_text lowercases a string and returns its
    words, the maximal runs of lowercase letters, digits and commas,
    joined by single spaces: every run of other characters, disallowed
    or whitespace, is a separator, it leaves one space between two
    words and nothing at the ends.  So a run [d] of such characters
    between two words [u] and [v] of a text in lower case leaves one
    space between them.  A value that is not a string gives the empty
    string. *)
Theorem normalize_text_words_joined (v : pyval) :
  normalize_text v =
    match v with
    | PStr s => join [space] (words (str_lower s))
    | _ => []
    end
  ∧ (∀ u d w : str,
       u ≠ [] → d ≠ [] → w ≠ [] →
       Forall (λ c, word_char c = true) u →
       Forall (λ c, word_char c = false) d →
       Forall (λ c, word_char c = true) w →
       str_lower (u ++ d ++ w) = u ++ d ++ w →
       normalize_text (PStr (u ++ d ++ w)) = u ++ [space] ++ w).
Proof.
  split.
  - destruct v; [done| |done]. apply normalize_text_spec.
  - intros u d w Hu Hd Hw Hcu Hcd Hcw Hlow.
    rewrite normalize_text_spec. unfold normalize_spec. rewrite Hlow.
    by rewrite words_between.
Qed.
End TextProperties.

Lemma normalize_text_idempotent_charset_witness :
  lower_fixes_allowed ascii_lower
  ∧ normalize_text (L:=ascii_lower)
      (PStr (normalize_text (L:=ascii_lower) (PStr (py "  Hello--World,  A-b "))))
    = normalize_text (L:=ascii_lower) (PStr (py "  Hello--World,  A-b "))
  ∧ Forall (λ c, allowed c = true)
      (normalize_text (L:=ascii_lower) (PStr (py "  Hello--World,  A-b "))).
Proof.
  split; [exact ascii_lower_fixes_allowed|].
  exact (normalize_text_idempotent_charset (L:=ascii_lower)
           (PStr (py "  Hello--World,  A-b ")) ascii_lower_fixes_allowed).
Defined.

Lemma normalize_text_words_joined_witness :
  normalize_text (L:=ascii_lower) (PStr (py "a-b")) = py "a" ++ [space] ++ py "b".
Proof.
  apply (proj2 (normalize_text_words_joined (L:=ascii_lower) PNone)
           (py "a") (py "-") (py "b")); try done.
  all: by repeat constructor.
Defined.

(** C5, as stated, fails: the hyphen of "a-b" is not deleted, a space
    stands in its place. *)
Lemma normalize_text_keeps_a_space :
  normalize_text (L:=ascii_lower) (PStr (py "a-b")) = py "a b"
  ∧ normalize_deleting (L:=ascii_lower) (py "a-b") = py "ab"
  ∧ normalize_text (L:=ascii_lower) (PStr (py "a-b"))
    ≠ normalize_deleting (L:=ascii_lower) (py "a-b").
Proof. split; [|split]; [vm_compute; reflexivity ..|]. vm_compute. discriminate. Qed.

(** ** jaccard_score *)

Section JaccardProperties.
Context {L : StrLower}.

Lemma Qc_div_nat_self (n : nat) :
  n ≠ 0%nat → (Qc_of_Z (Z.of_nat n) / Qc_of_Z (Z.of_nat n))%Qc = 1%Qc.
Proof.
  intros Hn. apply Qcmult_inv_r.
  rewrite <- Z2Qc_inj_0. intros H%Z2Qc_inj. lia.
Qed.

Lemma skill_set_empty (X : list pyval) :
  Forall (λ x, truthy x = false) X →
  list_to_set (C:=gset str) (normalize_text <$> filter (λ x, truthy x = true) X) = ∅.
Proof.
  induction 1 as [|x X Hx HX IH]; [done|].
  rewrite filter_cons_False by congruence. exact IH.
Qed.

Lemma skill_set_nonempty (X : list pyval) :
  Exists (λ x, truthy x = true) X →
  list_to_set (C:=gset str) (normalize_text <$> filter (λ x, truthy x = true) X) ≠ ∅.
Proof.
  intros (x & Hin & Hx)%Exists_exists.
  assert (normalize_text x ∈ normalize_text <$> filter (λ x, truthy x = true) X) as H.
  { apply list_elem_of_fmap. exists x. split; [done|].
    apply list_elem_of_filter. done. }
  intros Hempty. apply (elem_of_list_to_set (C:=gset str)) in H.
  rewrite Hempty in H. set_solver.
Qed.

(** C4, amended: on a list with an element that is not empty (one that
    passes the filter [if x]) the score of the list against itself is
    1.0; on two lists without such an element, the two empty lists
    among them, it is 0.0. *)
Theorem jaccard_score_self_and_empty (X : list pyval) :
  Exists (λ x, truthy x = true) X →
  jaccard_score X X = 1%Qc
  ∧ (∀ Y Z, Forall (λ x, truthy x = false) Y → Forall (λ x, truthy x = false) Z →
       jaccard_score Y Z = 0%Qc).
Proof.
  intros HX. split.
  - unfold jaccard_score. pose proof (skill_set_nonempty X HX) as Hne.
    set (s := list_to_set _) in *.
    rewrite (bool_decide_eq_false_2 _ Hne). cbn [andb].
    rewrite (idemp_L (∪) s), (idemp_L (∩) s).
    rewrite (bool_decide_eq_false_2 _ Hne).
    apply Qc_div_nat_self. intros H0. apply size_empty_inv in H0.
    apply Hne. by apply leibniz_equiv.
  - intros Y Z HY HZ. unfold jaccard_score.
    rewrite (skill_set_empty Y HY), (skill_set_empty Z HZ).
    by rewrite bool_decide_eq_true_2.
Qed.
End JaccardProperties.

Lemma jaccard_score_self_and_empty_witness :
  Exists (λ x, truthy x = true) [PStr (py "python"); PStr (py "sql")]
  ∧ jaccard_score (L:=ascii_lower) [PStr (py "python"); PStr (py "sql")]
      [PStr (py "python"); PStr (py "sql")] = 1%Qc.
Proof.
  assert (Exists (λ x, truthy x = true) [PStr (py "python"); PStr (py "sql")]) as H
    by (left; reflexivity).
  split; [exact H|].
  exact (proj1 (jaccard_score_self_and_empty (L:=ascii_lower) _ H)).
Defined.

(** C4, as stated, fails: the list [[""]] is not empty, and its score
    against itself is 0.0. *)
Lemma jaccard_score_of_empty_skill :
  [PStr []] ≠ [] ∧ jaccard_score (L:=ascii_lower) [PStr []] [PStr []] = 0%Qc
  ∧ jaccard_score (L:=ascii_lower) [PStr []] [PStr []] ≠ 1%Qc.
Proof.
  assert (jaccard_score (L:=ascii_lower) [PStr []] [PStr []] = 0%Qc) as H.
  { unfold jaccard_score. rewrite filter_cons_False by (cbn; congruence).
    rewrite filter_nil. cbn [fmap list_fmap]. rewrite list_to_set_nil.
    by rewrite bool_decide_eq_true_2. }
  split; [done|]. split; [exact H|]. rewrite H. done.
Qed.

(** ** Substrings *)

Lemma starts_with_spec (p s : str) : starts_with p s = true ↔ ∃ v, s = p ++ v.
Proof.
  unfold starts_with. rewrite bool_decide_eq_true. split.
  - intros H. exists (drop (length p) s).
    rewrite <- H at 1. by rewrite take_drop.
  - intros [v ->]. apply take_app_length.
Qed.

Lemma is_substring_spec (p s : str) :
  is_substring p s = true ↔ ∃ u v, s = u ++ p ++ v.
Proof.
  induction s as [|c s IH]; cbn [is_substring]; rewrite orb_true_iff, starts_with_spec.
  - split.
    + intros [[v Hv]|]; [|done]. by exists [], v.
    + intros (u & v & H). left. exists v.
      destruct u; [done|discriminate].
  - rewrite IH. split.
    + intros [[v Hv]|(u & v & ->)]; [by exists [], v|by exists (c :: u), v].
    + intros (u & v & H). destruct u as [|c' u].
      * left. by exists v.
      * right. exists u, v. by injection H.
Qed.

(** ** An insertion sort keeps the promise of the library sort *)

Section SortProperties.
Context {F : Type} {FO : FloatOps F}.
Hypothesis ranks_total : ∀ a b : F, ranks_before a b = true ∨ ranks_before b a = true.
Hypothesis ranks_trans : ∀ a b c : F,
  ranks_before a b = true → ranks_before b c = true → ranks_before a c = true.

Lemma insert_first_perm x l : insert_first x l ≡ₚ x :: l.
Proof.
  induction l as [|y l IH]; [done|].
  cbn [insert_first]. destruct (ranks_before x.2 y.2); [done|].
  rewrite IH. apply Permutation_swap.
Qed.

Lemma desc_cons_sorted x y l :
  desc x y → StronglySorted desc (y :: l) → StronglySorted desc (x :: y :: l).
Proof.
  intros Hxy Hs. constructor; [done|]. constructor; [done|].
  apply StronglySorted_inv in Hs as [_ Hy].
  eapply Forall_impl; [exact Hy|]. intros z Hyz. by eapply ranks_trans.
Qed.

Lemma insert_first_sorted x l :
  StronglySorted desc l → StronglySorted desc (insert_first x l).
Proof.
  induction 1 as [|y l Hl IH Hy]; [by repeat constructor|].
  cbn [insert_first]. destruct (ranks_before x.2 y.2) eqn:E.
  - apply desc_cons_sorted; [done|by constructor].
  - constructor; [done|]. rewrite insert_first_perm. constructor; [|done].
    destruct (ranks_total x.2 y.2); [congruence|done].
Qed.

Lemma stable_sort_spec : sort_values_spec stable_sort.
Proof.
  split; intros l; unfold sort_values_desc, stable_sort.
  - induction l as [|x l IH]; [done|]. cbn [foldr].
    by rewrite insert_first_perm, IH.
  - induction l as [|x l IH]; [constructor|]. cbn [foldr].
    by apply insert_first_sorted.
Qed.

End SortProperties.

Lemma exact_ranks_before (a b : Qc) :
  ranks_before (FO:=exact_floats) a b = bool_decide (b ≤ a)%Qc.
Proof.
  unfold ranks_before. cbn [fle exact_floats].
  rewrite (bool_decide_eq_true_2 (b ≤ b)%Qc) by reflexivity.
  by rewrite orb_false_r.
Qed.

Lemma exact_ranks_total (a b : Qc) :
  ranks_before (FO:=exact_floats) a b = true ∨ ranks_before (FO:=exact_floats) b a = true.
Proof.
  rewrite !exact_ranks_before, !bool_decide_eq_true.
  destruct (total (≤)%Qc a b); auto.
Qed.

Lemma exact_ranks_trans (a b c : Qc) :
  ranks_before (FO:=exact_floats) a b = true → ranks_before (FO:=exact_floats) b c = true →
  ranks_before (FO:=exact_floats) a c = true.
Proof.
  rewrite !exact_ranks_before, !bool_decide_eq_true. intros H1 H2. by etrans.
Qed.

Lemma exact_stable_sort_spec :
  sort_values_spec (FO:=exact_floats) (stable_sort (FO:=exact_floats)).
Proof. apply stable_sort_spec; [apply exact_ranks_total|apply exact_ranks_trans]. Qed.

(** ** recommend *)

Lemma head_sublist {A} (n : Z) (l : list A) : head n l `sublist_of` l.
Proof. unfold head. destruct (0 <=? n); apply sublist_take. Qed.

Lemma StronglySorted_take {A} (R : relation A) (n : nat) (l : list A) :
  StronglySorted R l → StronglySorted R (take n l).
Proof.
  intros H. rewrite <- (take_drop n l) in H.
  by apply StronglySorted_app_1_l in H.
Qed.

Section RecommendProperties.
Context {L : StrLower} {F : Type} {FO : FloatOps F} {E : Encoder F}
        {SV : SortValues F}.

Lemma length_location_bonus (self : Recommender F) pref :
  length (location_bonus self pref) = length (companies self).
Proof.
  unfold location_bonus. destruct (truthy pref).
  - by rewrite length_fmap.
  - by rewrite length_replicate.
Qed.

Lemma length_gov_bonus (self : Recommender F) is_rural :
  length (gov_bonus self is_rural) = length (companies self).
Proof.
  unfold gov_bonus. destruct is_rural.
  - by rewrite length_fmap.
  - by rewrite length_replicate.
Qed.

Lemma length_final_score (self : Recommender F) text skills pref is_rural w :
  length (embeddings self) = length (companies self) →
  length (final_score self text skills pref is_rural w) = length (companies self).
Proof.
  intros Hlen. unfold final_score, scale, similarity, jaccard_column.
  rewrite !length_zip_with, !length_fmap, length_location_bonus, length_gov_bonus.
  lia.
Qed.

(** C1, amended: with [n] the size of the catalog, the score-sorted
    order has [n] entries; for [0 <= top_k] recommend returns its first
    [top_k] entries, none for [top_k = 0] and all of them for
    [n <= top_k]; for a negative [top_k] it returns the sorted order
    without its last [-top_k] entries, which is [n - (-top_k)] entries
    and not none unless [n <= -top_k]. *)
Theorem recommend_top_k (self : Recommender F) text skills pref is_rural
    (top_k : Z) w :
  sort_values_spec SV →
  length (embeddings self) = length (companies self) →
  let sorted := sort_values_desc
                  (zip (companies self) (final_score self text skills pref is_rural w)) in
  let res := recommend self text skills pref is_rural top_k w in
  length sorted = length (companies self)
  ∧ (0 ≤ top_k → res = take (Z.to_nat top_k) sorted)
  ∧ (top_k = 0 → res = [])
  ∧ (Z.of_nat (length (companies self)) ≤ top_k → res = sorted)
  ∧ (top_k < 0 →
       res = take (length sorted - Z.to_nat (- top_k)) sorted
       ∧ length res = (length (companies self) - Z.to_nat (- top_k))%nat).
Proof.
  intros HSV Hlen sorted res.
  assert (length sorted = length (companies self)) as Hn.
  { unfold sorted. rewrite (Permutation_length (sort_values_perm _ HSV _)).
    rewrite length_zip, length_final_score by done. lia. }
  assert (0 ≤ top_k → res = take (Z.to_nat top_k) sorted) as Hpos.
  { intros H. unfold res, recommend, head. fold sorted.
    by rewrite (proj2 (Z.leb_le 0 top_k) H). }
  split; [done|]. split; [done|]. split; [|split].
  - intros ->. by rewrite Hpos.
  - intros H. rewrite Hpos by lia. apply take_ge. lia.
  - intros H. assert (res = take (length sorted - Z.to_nat (- top_k)) sorted) as ->.
    { unfold res, recommend, head. fold sorted.
      by rewrite (proj2 (Z.leb_gt 0 top_k) H). }
    split; [done|]. rewrite length_take. lia.
Qed.

(** X24: the sequence that recommend returns is sorted in descending
    order of score, every entry standing before all those of a lower
    score (NaN scores last), and it is made of catalog entries paired
    with their scores, none taken twice; this for every library sort
    that reorders the rows into descending order, whatever it does with
    rows of equal score. *)
Theorem recommend_sorted_desc (self : Recommender F) text skills pref is_rural
    (top_k : Z) w :
  sort_values_spec SV →
  StronglySorted desc (recommend self text skills pref is_rural top_k w)
  ∧ recommend self text skills pref is_rural top_k w
    ⊆+ zip (companies self) (final_score self text skills pref is_rural w).
Proof.
  intros HSV. unfold recommend. split.
  - unfold head. destruct (0 <=? top_k);
      apply StronglySorted_take, (sort_values_sorted _ HSV).
  - etrans; [apply sublist_submseteq, head_sublist|].
    apply Permutation_submseteq, (sort_values_perm _ HSV).
Qed.

(** C6: the location bonus of a catalog entry.  When the preference
    is present and normalizes to a non-empty string, the bonus is 1.0
    if that string occurs in the normalized Location of the entry and
    0.0 if it does not; when the preference is absent, empty or
    normalizes to the empty string, the bonus is 0.0. *)
Theorem location_bonus_entry (self : Recommender F) (pref : pyval) (i : nat) (r : row) :
  companies self !! i = Some r →
  let loc := normalize_text pref in
  let occurs := ∃ u v, normalize_text (Location r) = u ++ loc ++ v in
  ∃ b, location_bonus self pref !! i = Some b
    ∧ (truthy pref = true → loc ≠ [] →
         (b = 1%Qc ∧ occurs) ∨ (b = 0%Qc ∧ ¬ occurs))
    ∧ (truthy pref = false ∨ loc = [] → b = 0%Qc).
Proof.
  intros Hi loc occurs. unfold location_bonus. fold loc.
  destruct (truthy pref) eqn:Hp.
  - rewrite list_lookup_fmap, Hi. cbn [fmap option_fmap option_map].
    eexists. split; [reflexivity|].
    destruct (decide (loc = [])) as [Hl|Hl].
    + rewrite (bool_decide_eq_true_2 _ Hl). cbn [negb andb].
      split; [done|]. done.
    + rewrite (bool_decide_eq_false_2 _ Hl). cbn [negb andb].
      destruct (is_substring loc (normalize_text (Location r))) eqn:Hs.
      * split; [|by intros [|]]. intros _ _. left. split; [done|].
        by apply is_substring_spec.
      * split; [|by intros [|]]. intros _ _. right. split; [done|].
        intros Ho%is_substring_spec. congruence.
  - exists 0%Qc. split; [|split; [done|done]].
    apply lookup_replicate_2. by apply lookup_lt_Some in Hi.
Qed.
End RecommendProperties.

Lemma sample_recommender_lengths :
  length (embeddings sample_recommender) = length (companies sample_recommender).
Proof. reflexivity. Qed.

Lemma recommend_top_k_witness :
  sort_values_spec (FO:=exact_floats) (stable_sort (FO:=exact_floats))
  ∧ length (embeddings sample_recommender) = length (companies sample_recommender)
  ∧ length (sample_recommend (stable_sort (FO:=exact_floats)) true 1) = 1%nat.
Proof.
  split; [exact exact_stable_sort_spec|]. split; [exact sample_recommender_lengths|].
  destruct (recommend_top_k (L:=ascii_lower) (FO:=exact_floats) (E:=length_encoder)
              (SV:=stable_sort (FO:=exact_floats)) sample_recommender
              (PStr (py "python dev")) (PStr (py "Python, SQL")) (PStr (py "pune"))
              true 1 (default_weights (FO:=exact_floats))
              exact_stable_sort_spec sample_recommender_lengths)
    as (Hn & Hpos & _).
  unfold sample_recommend. rewrite Hpos by lia. rewrite length_take, Hn. reflexivity.
Defined.

(** C1, as stated, fails: with [top_k = -1] on a catalog of two entries
    recommend returns one entry, not none. *)
Lemma recommend_negative_top_k :
  length (companies sample_recommender) = 2%nat
  ∧ length (sample_recommend (stable_sort (FO:=exact_floats)) true (-1)) = 1%nat
  ∧ sample_recommend (stable_sort (FO:=exact_floats)) true (-1) ≠ [].
Proof.
  assert (length (sample_recommend (stable_sort (FO:=exact_floats)) true (-1)) = 1%nat) as H
    by (vm_compute; reflexivity).
  split; [reflexivity|]. split; [exact H|].
  intros E. rewrite E in H. discriminate H.
Qed.

Lemma recommend_sorted_desc_witness :
  sort_values_spec (FO:=exact_floats) (stable_sort (FO:=exact_floats))
  ∧ StronglySorted (desc (FO:=exact_floats))
      (sample_recommend (stable_sort (FO:=exact_floats)) true 5).
Proof.
  split; [exact exact_stable_sort_spec|].
  exact (proj1 (recommend_sorted_desc (L:=ascii_lower) (FO:=exact_floats)
                  (E:=length_encoder) (SV:=stable_sort (FO:=exact_floats))
                  sample_recommender (PStr (py "python dev")) (PStr (py "Python, SQL"))
                  (PStr (py "pune")) true 5 (default_weights (FO:=exact_floats))
                  exact_stable_sort_spec)).
Defined.

Lemma location_bonus_entry_witness :
  ∃ r, companies sample_recommender !! 0%nat = Some r
    ∧ ∃ b, location_bonus (L:=ascii_lower) sample_recommender (PStr (py "pune")) !! 0%nat
           = Some b.
Proof.
  eexists. split; [reflexivity|].
  destruct (location_bonus_entry (L:=ascii_lower) sample_recommender (PStr (py "pune"))
              0%nat _ eq_refl) as (b & Hb & _).
  exists b. exact Hb.
Defined.

(** ** recommend on the store *)

Section StoreProperties.
Context {F : Type}.

Lemma wp_ret {A} (a : A) (Q : A → heap F → Prop) h : Q a h → wp (ret a) Q h.
Proof. intros H. by exists a, h. Qed.

Lemma wp_bind {A B} (m : M F A) (k : A → M F B) (Q : B → heap F → Prop) h :
  wp m (λ a h', wp (k a) Q h') h → wp (bind m k) Q h.
Proof.
  intros (a & h' & Hm & b & h'' & Hk & HQ). exists b, h''.
  unfold bind. by rewrite Hm.
Qed.

Lemma wp_alloc (o : obj F) (Q : positive → heap F → Prop) h :
  (∀ l, h !! l = None → Q l (<[l:=o]> h)) → wp (alloc o) Q h.
Proof.
  intros H. exists (fresh (dom h)), (<[fresh (dom h):=o]> h). split; [done|].
  apply H, not_elem_of_dom, is_fresh.
Qed.

Lemma wp_load (l : positive) (o : obj F) (Q : obj F → heap F → Prop) h :
  h !! l = Some o → Q o h → wp (load l) Q h.
Proof. intros Hl H. exists o, h. unfold load. by rewrite Hl. Qed.

Lemma wp_store (l : positive) (o o' : obj F) (Q : unit → heap F → Prop) h :
  h !! l = Some o' → Q () (<[l:=o]> h) → wp (store l o) Q h.
Proof. intros Hl H. exists (), (<[l:=o]> h). unfold store. by rewrite Hl. Qed.
End StoreProperties.

Section StoreRecommendProperties.
Context {L : StrLower} {F : Type} {FO : FloatOps F} {E : Encoder F}
        {SV : SortValues F}.

Lemma wp_load_matrix l a (Q : list (list F) → heap F → Prop) h :
  h !! l = Some (OMatrix a) → Q a h → wp (load_matrix l) Q h.
Proof.
  intros Hl H. apply wp_bind. eapply wp_load; [done|]. by apply wp_ret.
Qed.

Lemma wp_load_vec l v (Q : list F → heap F → Prop) h :
  h !! l = Some (OVec v) → Q v h → wp (load_vec l) Q h.
Proof.
  intros Hl H. apply wp_bind. eapply wp_load; [done|]. by apply wp_ret.
Qed.

Lemma wp_load_frame l rows score (Q : list row * option (list F) → heap F → Prop) h :
  h !! l = Some (OFrame rows score) → Q (rows, score) h → wp (load_frame l) Q h.
Proof.
  intros Hl H. apply wp_bind. eapply wp_load; [done|]. by apply wp_ret.
Qed.

Lemma wp_load_scored l (res : list (row * F)) (Q : list (row * F) → heap F → Prop) h :
  h !! l = Some (frame_of res) → Q res h → wp (load_scored l) Q h.
Proof.
  intros Hl H. apply wp_bind. eapply wp_load_frame; [done|].
  apply wp_ret. by rewrite zip_fst_snd.
Qed.

(** _normalize_embeddings on the store: two objects are allocated, the
    norms, assigned in place, and the result; what was in the store
    stays. *)
Lemma wp_normalize_embeddings_m embs a (Q : positive → heap F → Prop) h :
  h !! embs = Some (OMatrix a) →
  (∀ l h', h ⊆ h' → h !! l = None →
           h' !! l = Some (OMatrix (_normalize_embeddings a)) → Q l h') →
  wp (_normalize_embeddings_m embs) Q h.
Proof.
  intros Ha HQ. unfold _normalize_embeddings_m.
  apply wp_bind. eapply wp_load_matrix; [done|].
  apply wp_bind, wp_alloc. intros norms Hn.
  assert (norms ≠ embs) as Hne by congruence.
  apply wp_bind. eapply wp_load_vec; [by rewrite lookup_insert_eq|].
  apply wp_bind. eapply wp_store; [by rewrite lookup_insert_eq|].
  rewrite insert_insert_eq.
  apply wp_bind. eapply wp_load_matrix; [by rewrite lookup_insert_ne|].
  apply wp_bind. eapply wp_load_vec; [by rewrite lookup_insert_eq|].
  apply wp_alloc. intros l Hl.
  apply lookup_insert_None in Hl as [Hl Hnl].
  apply HQ; [|done|by rewrite lookup_insert_eq].
  apply insert_subseteq_r; [done|]. by apply insert_subseteq.
Qed.

(** C8: a call of recommend returns the records that the function
    computes from the catalog, and leaves every object that was in the
    store before the call as it was: the table of [self.companies],
    with its combined_text and IsGovernment columns and no score
    column, and the matrix of [self.embeddings] among them. *)
Theorem recommend_leaves_catalog_unchanged (self : RecommenderRef)
    (rows : list row) (embs : list (list F)) text skills pref is_rural
    (top_k : Z) w (h : heap F) :
  h !! companies_ref self = Some (OFrame rows None) →
  h !! embeddings_ref self = Some (OMatrix embs) →
  length embs = length rows →
  ∃ h', recommend_m self text skills pref is_rural top_k w h
          = Some (recommend (MkRecommender rows embs) text skills pref
                    is_rural top_k w, h')
      ∧ h' !! companies_ref self = Some (OFrame rows None)
      ∧ h' !! embeddings_ref self = Some (OMatrix embs)
      ∧ h ⊆ h'.
Proof.
  intros Hc He Hlen.
  set (this := MkRecommender rows embs).
  set (expected := recommend this text skills pref is_rural top_k w).
  cut (wp (recommend_m self text skills pref is_rural top_k w)
         (λ res h', res = expected ∧ h ⊆ h') h).
  { intros (res & h' & Hrun & -> & Hsub). exists h'.
    split; [done|]. split; [|split; [|done]].
    - by eapply lookup_weaken.
    - by eapply lookup_weaken. }
  unfold recommend_m.
  apply wp_bind, wp_alloc. intros c0 Hc0.
  apply wp_bind. eapply wp_normalize_embeddings_m; [by rewrite lookup_insert_eq|].
  intros cand h1 Hh1 _ Hcand.
  assert (h ⊆ h1) as Hsub1.
  { etrans; [|exact Hh1]. by apply insert_subseteq. }
  clear Hh1 Hc0 c0.
  apply wp_bind. eapply wp_load_matrix; [done|].
  apply wp_bind. eapply wp_load_matrix; [by eapply lookup_weaken|].
  apply wp_bind, wp_alloc. intros sim Hsim.
  apply wp_bind. eapply wp_load_frame.
  { rewrite lookup_insert_ne by (intros ->; by rewrite (lookup_weaken _ _ _ _ Hc Hsub1) in Hsim).
    by eapply lookup_weaken. }
  cbn [fst]. fold this.
  apply wp_bind, wp_alloc. intros jac Hjac.
  apply wp_bind, wp_alloc. intros loc Hloc.
  apply wp_bind, wp_alloc. intros gov Hgov.
  apply lookup_insert_None in Hgov as [Hgov Hne1].
  apply lookup_insert_None in Hgov as [Hgov Hne2].
  apply lookup_insert_None in Hgov as [Hgov Hne3].
  apply lookup_insert_None in Hloc as [Hloc Hne4].
  apply lookup_insert_None in Hloc as [Hloc Hne5].
  apply lookup_insert_None in Hjac as [Hjac Hne6].
  apply wp_bind. eapply wp_load_vec; [by simplify_map_eq|].
  apply wp_bind. eapply wp_load_vec; [by simplify_map_eq|].
  apply wp_bind. eapply wp_load_vec; [by simplify_map_eq|].
  apply wp_bind. eapply wp_load_vec; [by simplify_map_eq|].
  apply wp_bind, wp_alloc. intros final Hfinal.
  pose proof (lookup_weaken _ _ _ _ Hc Hsub1) as Hc1.
  assert (companies_ref self ≠ sim) as Hcs by congruence.
  assert (companies_ref self ≠ jac) as Hcj by congruence.
  assert (companies_ref self ≠ loc) as Hcl by congruence.
  assert (companies_ref self ≠ gov) as Hcg by congruence.
  assert (companies_ref self ≠ final) as Hcf.
  { intros <-. by simplify_map_eq. }
  apply wp_bind. eapply wp_load_frame; [by simplify_map_eq|].
  cbn [fst snd].
  apply wp_bind, wp_alloc. intros res Hres.
  apply lookup_insert_None in Hres as [Hres Hne7].
  apply wp_bind. eapply wp_load_vec; [by simplify_map_eq|].
  apply wp_bind. eapply wp_load_frame; [by simplify_map_eq|].
  cbn [fst snd].
  set (score := zip_with fadd _ _).
  assert (score = final_score this text skills pref is_rural w) as Hscore by done.
  assert (length score = length rows) as Hls.
  { rewrite Hscore. by apply (length_final_score this). }
  rewrite (bool_decide_eq_true_2 _ Hls).
  apply wp_bind. eapply wp_store; [by simplify_map_eq|].
  rewrite insert_insert_eq.
  apply wp_bind. eapply (wp_load_scored _ (zip rows score)).
  { rewrite lookup_insert_eq. unfold frame_of.
    by rewrite fst_zip, snd_zip by lia. }
  apply wp_bind, wp_alloc. intros sorted Hsorted.
  apply wp_bind. eapply wp_load_scored; [by rewrite lookup_insert_eq|].
  apply wp_bind, wp_alloc. intros top Htop.
  eapply wp_load_scored; [by rewrite lookup_insert_eq|].
  split.
  - unfold expected, recommend. by rewrite <- Hscore.
  - repeat match goal with
           | H : <[_:=_]> _ !! _ = None |- _ =>
               apply lookup_insert_None in H as [H _]
           end.
    etrans; [exact Hsub1|].
    repeat (apply insert_subseteq_r; [done|]). done.
Qed.
End StoreRecommendProperties.

Lemma recommend_leaves_catalog_unchanged_witness :
  sample_store !! companies_ref sample_self = Some (OFrame (companies sample_recommender) None)
  ∧ sample_store !! embeddings_ref sample_self = Some (OMatrix (embeddings sample_recommender))
  ∧ length (embeddings sample_recommender) = length (companies sample_recommender)
  ∧ ∃ h', sample_store ⊆ h'
      ∧ snd <$> recommend_m (L:=ascii_lower) (FO:=exact_floats) (E:=length_encoder)
                  (SV:=stable_sort (FO:=exact_floats)) sample_self (PStr (py "python dev"))
                  (PStr (py "Python, SQL")) (PStr (py "pune")) true 5
                  (default_weights (FO:=exact_floats)) sample_store = Some h'.
Proof.
  assert (sample_store !! companies_ref sample_self
          = Some (OFrame (companies sample_recommender) None)) as H1 by reflexivity.
  assert (sample_store !! embeddings_ref sample_self
          = Some (OMatrix (embeddings sample_recommender))) as H2 by reflexivity.
  split; [exact H1|]. split; [exact H2|]. split; [exact sample_recommender_lengths|].
  destruct (recommend_leaves_catalog_unchanged (L:=ascii_lower) (FO:=exact_floats)
              (E:=length_encoder) (SV:=stable_sort (FO:=exact_floats)) sample_self
              _ _ (PStr (py "python dev")) (PStr (py "Python, SQL")) (PStr (py "pune"))
              true 5 (default_weights (FO:=exact_floats)) sample_store
              H1 H2 sample_recommender_lengths) as (h' & Hrun & _ & _ & Hsub).
  exists h'. split; [exact Hsub|]. rewrite Hrun. reflexivity.
Defined.

(** ** parse_resume_with_llm *)

Lemma has_key_setdefault k k' v d :
  has_key k (setdefault k' v d) = true ↔ k = k' ∨ has_key k d = true.
Proof.
  unfold setdefault. destruct (has_key k' d) eqn:Hk'.
  - split; [auto|]. intros [->|]; done.
  - unfold has_key in *. rewrite existsb_app. cbn [existsb fst].
    rewrite orb_false_r, orb_true_iff, bool_decide_eq_true.
    split; [intros [H|H]|intros [H|H]]; auto.
Qed.

Lemma has_key_foldl_setdefault k v ks d :
  has_key k (foldl (λ d k, setdefault k v d) d ks) = true ↔ k ∈ ks ∨ has_key k d = true.
Proof.
  revert d. induction ks as [|k' ks IH]; intros d; cbn [foldl].
  - rewrite elem_of_nil. tauto.
  - rewrite IH, has_key_setdefault, elem_of_cons. tauto.
Qed.

Section ResumeProperties.
Context {L : StrLower} {RE : ResumeEnv}.

Lemma safe_json_from_llm_keys text v :
  safe_json_from_llm text = Ok v →
  ∃ d, v = JDict d ∧ Forall (λ k, has_key k d = true) profile_keys.
Proof.
  unfold safe_json_from_llm. destruct groq_client; cbn [negb]; [|done].
  destruct (chat_completion _) as [[c|]|e]; cbn [rbind]; [|done|done].
  destruct (search_braces (strip c)) as [json_str|]; [|done].
  destruct (json_loads json_str) as [parsed|e]; cbn [try_except rbind]; [|done].
  destruct parsed as [| | | | |d]; try done.
  intros Hv. exists (foldl (λ d k, setdefault k (JStr []) d) d profile_keys).
  split; [congruence|]. clear Hv.
  apply Forall_forall. intros k Hk.
  apply has_key_foldl_setdefault. by left.
Qed.

Lemma fallback_extract_keys text :
  ∃ d, fallback_extract text = JDict d ∧ Forall (λ k, has_key k d = true) profile_keys.
Proof. eexists. split; [reflexivity|]. repeat constructor. Qed.

(** C9: on every byte string parse_resume_with_llm returns, and what
    it returns is a dict with the eight profile keys.  A failure of the
    PDF reader gives the empty text, a failure anywhere on the LLM
    path, raised as an Exception, is caught and answered by
    fallback_extract, which raises nothing. *)
Theorem parse_resume_with_llm_total (file_bytes : list Byte.byte) :
  ∃ d, parse_resume_with_llm file_bytes = Ok (JDict d)
       ∧ Forall (λ k, has_key k d = true) profile_keys.
Proof.
  unfold parse_resume_with_llm, extract_text_from_pdf_bytes.
  assert (∃ text : str,
            try_except
              (text <- try_except (pdf_text file_bytes) (λ _, Ok []) ;;;
               if bool_decide (strip text = []) then Ok (decode_utf8_ignore file_bytes)
               else Ok text)
              (λ _, Ok (decode_utf8_ignore file_bytes)) = Ok text) as [text ->].
  { destruct (pdf_text file_bytes) as [t|e]; cbn [try_except rbind].
    - destruct (bool_decide (strip t = [])); eauto.
    - eauto. }
  cbn [rbind].
  destruct (safe_json_from_llm text) as [v|e] eqn:Hllm; cbn [try_except].
  - destruct (safe_json_from_llm_keys _ _ Hllm) as (d & -> & Hd). eauto.
  - destruct (fallback_extract_keys text) as (d & -> & Hd). eauto.
Qed.
End ResumeProperties.

(** ** save_student_profile *)

Section UtilsProperties.
Context {CC : CsvCodec}.

(** C10, amended: when the "email" field of the record is missing or
    empty, save_student_profile raises and the files are as before;
    what it raises is the ValueError of the email check when the load
    of the existing file succeeded, and what the reader raised when it
    did not.  When the email is present: if the load of the existing
    file fails, the function raises what the reader raised and the
    files are as before; if the load succeeds and to_csv writes the
    frame, the file at the given path holds what was written, the other
    files are as before and the function returns the record it was
    given; if the load succeeds and to_csv raises, the function raises
    what to_csv raised, the files other than the one at the path are as
    before, and that one too when to_csv raised before opening it. *)
Theorem save_student_profile_outcome (record : list (str * pyval))
    (filepath : string) (fs : files) :
  let email := dict_get (py "email") record in
  let out := save_student_profile record filepath fs in
  (truthy email = false →
     out.2 = fs
     ∧ ∃ e, out.1 = Raise e
          ∧ (∀ df, load_students record filepath fs = Ok df →
               e = Exception "ValueError"
                     "Record must contain an 'email' field to identify student.")
          ∧ (∀ e', load_students record filepath fs = Raise e' → e = e'))
  ∧ (truthy email = true →
     (∀ e, load_students record filepath fs = Raise e → out = (Raise e, fs))
     ∧ (∀ df, load_students record filepath fs = Ok df →
          (∀ content, to_csv (upsert record df) filepath = Written content →
             out = (Ok record, <[filepath := content]> fs))
          ∧ (∀ e left, to_csv (upsert record df) filepath = WriteRaised e left →
               out.1 = Raise e
               ∧ (left = None → out.2 = fs)
               ∧ (∀ p, p ≠ filepath → out.2 !! p = fs !! p)))).
Proof.
  intros email out. unfold out, save_student_profile. fold email. split.
  - intros He. destruct (load_students record filepath fs) as [df|e].
    + rewrite He. cbn [negb fst snd]. split; [done|].
      eexists. split; [done|]. split; [done|]. intros e' [=].
    + cbn [fst snd]. split; [done|]. eexists. split; [done|].
      split; [intros df [=]|]. by intros e' [= ->].
  - intros He. split; [by intros e ->|].
    intros df ->. rewrite He. cbn [negb]. unfold upsert. fold email. split.
    + by intros content ->.
    + intros e left ->. destruct left as [content|]; cbn [fst snd].
      * split; [done|]. split; [done|]. intros p Hp. by rewrite lookup_insert_ne.
      * done.
Qed.
End UtilsProperties.

Lemma save_student_profile_outcome_witness :
  truthy (dict_get (py "email") sample_record) = true
  ∧ truthy (dict_get (py "email") sample_record_no_email) = false
  ∧ save_student_profile (CC:=strict_codec) sample_record "students.csv" ∅
    = (Ok sample_record, {[ "students.csv"%string := [Byte.x0a] ]})
  ∧ (save_student_profile (CC:=strict_codec) sample_record_no_email "students.csv" ∅).2
    = ∅.
Proof.
  assert (truthy (dict_get (py "email") sample_record) = true) as H1 by reflexivity.
  assert (truthy (dict_get (py "email") sample_record_no_email) = false) as H2 by reflexivity.
  split; [exact H1|]. split; [exact H2|]. split.
  - exact (proj1 (proj2 (proj2 (save_student_profile_outcome (CC:=strict_codec)
                                  sample_record "students.csv" ∅) H1) _ eq_refl)
             _ eq_refl).
  - exact (proj1 (proj1 (save_student_profile_outcome (CC:=strict_codec)
                           sample_record_no_email "students.csv" ∅) H2)).
Defined.

(** C10, as stated, fails: the email is present and the function raises
    rather than returning the record, once because the file at the path
    cannot be read, once because the path cannot be written. *)
Lemma save_student_profile_raises_with_email :
  truthy (dict_get (py "email") sample_record) = true
  ∧ (save_student_profile (CC:=strict_codec) sample_record "students.csv" unreadable_files).1
    = Raise (Exception "UnicodeDecodeError" "'utf-8' codec can't decode byte 0xff")
  ∧ (save_student_profile (CC:=strict_codec) sample_record "students.csv" unreadable_files).1
    ≠ Ok sample_record
  ∧ (save_student_profile (CC:=strict_codec) sample_record "no_such_dir/students.csv" ∅).1
    = Raise (Exception "OSError" "Cannot save file into a non-existent directory")
  ∧ (save_student_profile (CC:=strict_codec) sample_record "no_such_dir/students.csv" ∅).1
    ≠ Ok sample_record.
Proof.
  assert ((save_student_profile (CC:=strict_codec) sample_record "students.csv"
             unreadable_files).1
          = Raise (Exception "UnicodeDecodeError" "'utf-8' codec can't decode byte 0xff")) as H
    by (vm_compute; reflexivity).
  assert ((save_student_profile (CC:=strict_codec) sample_record "no_such_dir/students.csv"
             ∅).1
          = Raise (Exception "OSError" "Cannot save file into a non-existent directory")) as H'
    by (vm_compute; reflexivity).
  split; [reflexivity|]. split; [exact H|]. split; [rewrite H; discriminate|].
  split; [exact H'|]. rewrite H'. discriminate.
Qed.

(** ** _normalize_embeddings, whatever the float arithmetic

    No divisor is zero, and a row is divided by its norm as computed,
    or by 1.0 when that norm is zero.  Whether the quotient has norm 1
    is a matter of how the arithmetic rounds: in IEEE arithmetic it has
    not when the squares overflow or underflow. *)

Section EmbeddingProperties.
Context {F : Type} {FO : FloatOps F}.

Lemma fix_zero_norms_nonzero (norms : list F) :
  feq0 (of_Qc 1) = false →
  Forall (λ n, feq0 n = false) (fix_zero_norms norms).
Proof.
  intros H1. unfold fix_zero_norms. apply Forall_fmap, Forall_forall.
  intros n _. cbn. by destruct (feq0 n) eqn:E.
Qed.

Lemma normalize_embeddings_row (embs : list (list F)) (i : nat) (row : list F) :
  embs !! i = Some row →
  let n := fsqrt (fsum ((λ x, fmul x x) <$> row)) in
  _normalize_embeddings embs !! i
  = Some ((λ x, fdiv x (if feq0 n then of_Qc 1 else n)) <$> row).
Proof.
  intros Hi n. unfold _normalize_embeddings, div_rows, fix_zero_norms, row_norms.
  rewrite lookup_zip_with, Hi. cbn [mbind option_bind].
  by rewrite !list_lookup_fmap, Hi.
Qed.

(** C7, amended: where 1.0 is not zero, _normalize_embeddings never
    divides by zero, on any matrix: every divisor is nonzero.  Row by
    row, a row whose computed norm is zero is divided by 1.0, and so
    comes back unchanged where dividing its coordinates by 1.0 leaves
    them as they are; any other row is divided, coordinate by
    coordinate, by its computed norm. *)
Theorem normalize_embeddings_never_divides_by_zero (embs : list (list F)) :
  feq0 (of_Qc 1) = false →
  Forall (λ d, feq0 d = false) (fix_zero_norms (row_norms embs))
  ∧ Forall2 (λ row row',
       (feq0 (l2_norm row) = true →
          row' = (λ x, fdiv x (of_Qc 1)) <$> row
          ∧ (Forall (λ x, fdiv x (of_Qc 1) = x) row → row' = row))
       ∧ (feq0 (l2_norm row) = false →
            row' = (λ x, fdiv x (l2_norm row)) <$> row))
      embs (_normalize_embeddings embs).
Proof.
  intros H1. split; [by apply fix_zero_norms_nonzero|].
  apply Forall2_same_length_lookup. split.
  - unfold _normalize_embeddings, div_rows, fix_zero_norms, row_norms.
    rewrite length_zip_with, !length_fmap. lia.
  - intros i row row' Hrow Hrow'.
    rewrite (normalize_embeddings_row embs i row Hrow) in Hrow'.
    injection Hrow' as <-. fold (l2_norm row). split.
    + intros ->. split; [done|]. intros Hdiv.
      rewrite <- (list_fmap_id row) at 2. apply list_fmap_ext.
      intros j x Hx. cbn. eapply (proj1 (Forall_lookup _ _) Hdiv); done.
    + by intros ->.
Qed.
End EmbeddingProperties.

Lemma normalize_embeddings_never_divides_by_zero_witness :
  feq0 (FloatOps:=binary64) (of_Qc (FloatOps:=binary64) 1) = false
  ∧ Forall (λ d, feq0 (FloatOps:=binary64) d = false)
      (fix_zero_norms (FO:=binary64)
         (row_norms (FO:=binary64)
            [[of_Qc (FloatOps:=binary64) 0; of_Qc (FloatOps:=binary64) 0];
             [of_Qc (FloatOps:=binary64) (Qc_of_Z 3);
              of_Qc (FloatOps:=binary64) (Qc_of_Z 4)]])).
Proof.
  assert (feq0 (FloatOps:=binary64) (of_Qc (FloatOps:=binary64) 1) = false) as H1
    by reflexivity.
  split; [exact H1|].
  exact (proj1 (normalize_embeddings_never_divides_by_zero (FO:=binary64) _ H1)).
Defined.

(** C7, as stated, fails in floating point.  In binary64 the squares of
    1e200 overflow: the row [1e200, 1e200] has the computed norm
    infinity, which is not zero, and it is scaled to the zero row, whose
    norm is not 1, not even within a factor of two.  The squares of
    1e-200 underflow: the row [1e-200, 1e-200] has the computed norm
    zero and is returned unchanged, and it is not the zero vector.  The
    same happens in binary32, with 1e20 and 1e-30. *)
Lemma normalize_embeddings_overflow :
  let zero := SpecFloat.S754_zero false in
  let inf := SpecFloat.S754_infinity false in
  (let big := of_Qc (FloatOps:=binary64) (Qc_of_Z (10 ^ 200)) in
   let small := of_Qc (FloatOps:=binary64) (Q2Qc (1 # 10 ^ 200)) in
   big = SpecFloat.S754_finite false 5883593420661338 612
   ∧ row_norms (FO:=binary64) [[big; big]] = [inf]
   ∧ feq0 (FloatOps:=binary64) inf = false
   ∧ _normalize_embeddings (FO:=binary64) [[big; big]] = [[zero; zero]]
   ∧ roughly_unit (FO:=binary64) [zero; zero] = false
   ∧ small = SpecFloat.S754_finite false 6894565328877484 (-717)
   ∧ row_norms (FO:=binary64) [[small; small]] = [zero]
   ∧ _normalize_embeddings (FO:=binary64) [[small; small]] = [[small; small]]
   ∧ roughly_unit (FO:=binary64) [small; small] = false)
  ∧ (let big := of_Qc (FloatOps:=binary32) (Qc_of_Z (10 ^ 20)) in
     let small := of_Qc (FloatOps:=binary32) (Q2Qc (1 # 10 ^ 30)) in
     row_norms (FO:=binary32) [[big; big]] = [inf]
     ∧ _normalize_embeddings (FO:=binary32) [[big; big]] = [[zero; zero]]
     ∧ feq0 (FloatOps:=binary32) small = false
     ∧ row_norms (FO:=binary32) [[small; small]] = [zero]
     ∧ _normalize_embeddings (FO:=binary32) [[small; small]] = [[small; small]]).
Proof. vm_compute. repeat split; reflexivity. Qed.

(** ** The scenarios of the specification *)

Example scenario_jaccard :
  jaccard_score (L:=ascii_lower)
    (PStr <$> parse_skills (L:=ascii_lower) (PStr (py "Python, SQL")))
    (PStr <$> parse_skills (L:=ascii_lower) (PStr (py "python, excel")))
  = (Qc_of_Z 1 / Qc_of_Z 3)%Qc.
Proof. vm_compute. reflexivity. Qed.

Example scenario_government :
  detect_gov (L:=ascii_lower) (PStr (py "Rural Development Trust")) (PStr []) = true.
Proof. vm_compute. reflexivity. Qed.

Example scenario_location :
  location_bonus (L:=ascii_lower) sample_recommender (PStr (py "pune")) = [1%Qc; 1%Qc].
Proof. vm_compute. reflexivity. Qed.

Example scenario_parse_skills :
  parse_skills (L:=ascii_lower) (PStr (py "Python, SQL and Excel,python"))
  = [py "python"; py "sql"; py "excel"].
Proof. vm_compute. reflexivity. Qed.

(** * Further properties *)

(** ** normalize_text: the shape of the result *)

Lemma word_char_ne_space c : word_char c = true → c ≠ space.
Proof. intros H ->. done. Qed.

Lemma single_spaced_cons_word c s :
  c ≠ space → single_spaced (c :: s) = single_spaced s.
Proof.
  intros Hc. destruct s as [|c2 s]; [done|].
  change (single_spaced (c :: c2 :: s))
    with (negb ((c =? space)%N && (c2 =? space)%N) && single_spaced (c2 :: s)).
  by rewrite (proj2 (N.eqb_neq c space) Hc).
Qed.

Lemma single_spaced_space_word c s :
  c ≠ space → single_spaced (space :: c :: s) = single_spaced (c :: s).
Proof.
  intros Hc.
  change (single_spaced (space :: c :: s))
    with (negb ((space =? space)%N && (c =? space)%N) && single_spaced (c :: s)).
  by rewrite (proj2 (N.eqb_neq c space) Hc), andb_false_r.
Qed.

Lemma single_spaced_app_word w s :
  Forall (λ c, word_char c = true) w → single_spaced (w ++ s) = single_spaced s.
Proof.
  induction 1 as [|c w Hc Hw IH]; [done|].
  cbn [app]. rewrite single_spaced_cons_word by by apply word_char_ne_space.
  exact IH.
Qed.

Lemma single_spaced_sp_join ws : word_list ws → single_spaced (sp_join ws) = true.
Proof.
  induction 1 as [|w ws [Hne Hw] Hws IH]; [done|].
  unfold sp_join. cbn [fmap list_fmap concat]. fold (sp_join ws).
  destruct w as [|c w]; [done|]. inversion Hw as [|?? Hc Hw']; subst.
  cbn [app]. rewrite single_spaced_space_word by by apply word_char_ne_space.
  rewrite app_comm_cons, single_spaced_app_word by done. exact IH.
Qed.

Lemma single_spaced_lookup s i :
  single_spaced s = true → s !! i = Some space → s !! S i ≠ Some space.
Proof.
  revert i. induction s as [|c1 s IH]; intros i Hs Hi; [done|].
  destruct s as [|c2 s]; [by destruct i|].
  change (single_spaced (c1 :: c2 :: s))
    with (negb ((c1 =? space)%N && (c2 =? space)%N) && single_spaced (c2 :: s)) in Hs.
  apply andb_true_iff in Hs as [Hpair Hs].
  destruct i as [|i].
  - injection Hi as ->. cbn. intros [= ->]. done.
  - by apply IH.
Qed.

Lemma last_word w :
  w ≠ [] → Forall (λ c, word_char c = true) w →
  ∃ c, last w = Some c ∧ word_char c = true.
Proof.
  intros Hne Hw. destruct (last w) as [c|] eqn:Hl.
  - exists c. split; [done|]. apply last_Some_elem_of in Hl.
    by eapply Forall_forall in Hw.
  - by apply last_None in Hl.
Qed.

Lemma last_sp_join ws :
  word_list ws → ws ≠ [] → ∃ c, last (sp_join ws) = Some c ∧ word_char c = true.
Proof.
  induction 1 as [|w ws [Hne Hw] Hws IH]; [done|]. intros _.
  unfold sp_join. cbn [fmap list_fmap concat]. fold (sp_join ws).
  destruct ws as [|w' ws].
  - cbn [sp_join fmap list_fmap concat]. rewrite app_nil_r.
    destruct (last_word w Hne Hw) as (c & Hc & Hwc). exists c. split; [|done].
    rewrite last_cons, Hc. done.
  - destruct IH as (c & Hc & Hwc); [done|]. exists c. split; [|done].
    rewrite last_app, Hc. done.
Qed.

Lemma words_nil_iff s : words s = [] ↔ Forall (λ c, word_char c = false) s.
Proof.
  unfold words. induction s as [|c s IH]; [by split; [constructor|]|].
  cbn [split_words]. destruct (split_words s) as [w ps].
  destruct (word_char c) eqn:Hc.
  - rewrite filter_cons_True by done. split; [done|].
    intros H. inversion H. congruence.
  - rewrite filter_cons_False by (intros H; by apply H).
    rewrite IH. split; [by constructor|]. by inversion 1.
Qed.

Lemma join_nil_iff ws : word_list ws → join [space] ws = [] ↔ ws = [].
Proof.
  intros Hws. split; [|by intros ->].
  destruct Hws as [|w ws [Hne _] _]; [done|].
  rewrite join_sp_join. by destruct w.
Qed.

Section TextShape.
Context {L : StrLower}.

(** X1: the result of normalize_text neither starts nor ends with a
    whitespace character and has no two spaces side by side. *)
Theorem normalize_text_trimmed_single_spaced (v : pyval) :
  let t := normalize_text v in
  (∀ c, t !! 0%nat = Some c → is_space c = false)
  ∧ (∀ c, last t = Some c → is_space c = false)
  ∧ (∀ i, t !! i = Some space → t !! S i ≠ Some space).
Proof.
  intros t. unfold t. destruct (normalize_text_words v) as (ws & Hws & ->).
  destruct Hws as [|w ws [Hne Hw] Hws]; [by repeat split; intros []|].
  rewrite join_sp_join. split; [|split].
  - destruct w as [|c w]; [done|]. intros c' [= <-].
    inversion Hw. by apply word_char_not_space.
  - intros c Hc. rewrite last_app in Hc. destruct ws as [|w' ws].
    + cbn in Hc. destruct (last_word w Hne Hw) as (c' & Hc' & Hwc).
      rewrite Hc' in Hc. injection Hc as <-. by apply word_char_not_space.
    + destruct (last_sp_join (w' :: ws)) as (c' & Hc' & Hwc); [done|done|].
      rewrite Hc' in Hc. injection Hc as <-. by apply word_char_not_space.
  - intros i. apply single_spaced_lookup.
    rewrite single_spaced_app_word by done. by apply single_spaced_sp_join.
Qed.

(** X2: normalize_text returns the empty string exactly for a value
    that is not a string and for a string whose lowercase has no letter
    a-z, no digit and no comma. *)
Theorem normalize_text_empty_iff (v : pyval) :
  normalize_text v = [] ↔
    match v with
    | PStr s => Forall (λ c, word_char c = false) (str_lower s)
    | _ => True
    end.
Proof.
  destruct v as [|s|z]; [done| |done].
  rewrite normalize_text_spec. unfold normalize_spec.
  rewrite (join_nil_iff _ (words_word_list _)). apply words_nil_iff.
Qed.
End TextShape.

(** ** parse_skills *)

Lemma lstrip_Forall (P : char → Prop) s : Forall P s → Forall P (lstrip s).
Proof.
  induction 1 as [|c s Hc Hs IH]; [constructor|].
  cbn [lstrip]. destruct (is_space c); [done|by constructor].
Qed.

Lemma rstrip_Forall (P : char → Prop) s : Forall P s → Forall P (rstrip s).
Proof.
  induction 1 as [|c s Hc Hs IH]; [constructor|].
  cbn [rstrip]. destruct (rstrip s) as [|c' r].
  - destruct (is_space c); repeat constructor. done.
  - by constructor.
Qed.

Lemma lstrip_first s c : lstrip s !! 0%nat = Some c → is_space c = false.
Proof.
  induction s as [|c' s IH]; [done|].
  cbn [lstrip]. destruct (is_space c') eqn:E; [done|].
  by intros [= <-].
Qed.

Lemma rstrip_first s c : rstrip s !! 0%nat = Some c → s !! 0%nat = Some c.
Proof.
  destruct s as [|c' s]; [done|].
  cbn [rstrip]. destruct (rstrip s); [destruct (is_space c')|]; done.
Qed.

Lemma rstrip_last s c : last (rstrip s) = Some c → is_space c = false.
Proof.
  induction s as [|c' s IH]; [done|].
  cbn [rstrip]. destruct (rstrip s) as [|c'' r].
  - destruct (is_space c') eqn:E; [done|]. by intros [= <-].
  - rewrite last_cons_cons. exact IH.
Qed.

Lemma fromkeys_aux_spec seen l :
  NoDup (fromkeys_aux seen l)
  ∧ ∀ x, x ∈ fromkeys_aux seen l ↔ x ∈ l ∧ x ∉ seen.
Proof.
  revert seen. induction l as [|y l IH]; intros seen.
  - split; [constructor|]. intros x. rewrite !elem_of_nil. tauto.
  - cbn [fromkeys_aux]. destruct (bool_decide (y ∈ seen)) eqn:Hy.
    + apply bool_decide_eq_true in Hy. destruct (IH seen) as [Hnd Hin].
      split; [done|]. intros x. rewrite Hin, elem_of_cons.
      split; [tauto|]. intros [[->|Hx] Hs]; [done|tauto].
    + apply bool_decide_eq_false in Hy. destruct (IH (y :: seen)) as [Hnd Hin].
      split.
      * constructor; [|done]. rewrite Hin, elem_of_cons. tauto.
      * intros x. rewrite !elem_of_cons, Hin, elem_of_cons.
        destruct (decide (x = y)) as [->|Hne]; tauto.
Qed.

Lemma fromkeys_aux_sublist seen l : fromkeys_aux seen l `sublist_of` l.
Proof.
  revert seen. induction l as [|y l IH]; intros seen; [done|].
  cbn [fromkeys_aux]. destruct (bool_decide (y ∈ seen)).
  - by apply sublist_cons.
  - by apply sublist_skip.
Qed.

Lemma fromkeys_aux_first seen l res1 y res2 :
  fromkeys_aux seen l = res1 ++ y :: res2 →
  ∃ pre post, l = pre ++ y :: post ∧ (y ∉ pre)
            ∧ ∀ x, x ∈ res1 ↔ x ∈ pre ∧ x ∉ seen.
Proof.
  revert seen res1. induction l as [|a l IH]; intros seen res1 Hres.
  - by destruct res1.
  - assert (y ∉ seen) as Hy.
    { assert (y ∈ fromkeys_aux seen (a :: l)) as Hin
        by (rewrite Hres; apply elem_of_app; right; left).
      by apply (proj2 (fromkeys_aux_spec seen (a :: l))) in Hin as [_ ?]. }
    cbn [fromkeys_aux] in Hres. destruct (bool_decide (a ∈ seen)) eqn:Ha.
    + apply bool_decide_eq_true in Ha.
      destruct (IH seen res1 Hres) as (pre & post & -> & Hpre & Hin).
      exists (a :: pre), post. split; [done|]. split.
      * rewrite not_elem_of_cons. split; [|done]. by intros ->.
      * intros x. rewrite Hin, elem_of_cons. split; [tauto|].
        intros [[->|Hx] Hs]; [done|tauto].
    + apply bool_decide_eq_false in Ha. destruct res1 as [|b res1].
      * injection Hres as <- Hres. exists [], l. split; [done|].
        split; [apply not_elem_of_nil|]. intros x. rewrite !elem_of_nil. tauto.
      * injection Hres as <- Hres.
        assert (y ≠ a) as Hya.
        { assert (y ∈ fromkeys_aux (a :: seen) l) as Hin
            by (rewrite Hres; apply elem_of_app; right; left).
          apply (proj2 (fromkeys_aux_spec (a :: seen) l)) in Hin as [_ Hin].
          rewrite not_elem_of_cons in Hin. tauto. }
        destruct (IH (a :: seen) res1 Hres) as (pre & post & -> & Hpre & Hin).
        exists (a :: pre), post. split; [done|]. split.
        -- rewrite not_elem_of_cons. tauto.
        -- intros x. rewrite !elem_of_cons, Hin, not_elem_of_cons.
           destruct (decide (x = a)) as [->|Hne]; tauto.
Qed.

Lemma re_split_aux_Forall (P : char → Prop) s : ∀ skip cur,
  Forall P cur → Forall P s → Forall (Forall P) (re_split_aux skip cur s).
Proof.
  induction s as [|c s IH]; intros skip cur Hcur Hs; cbn [re_split_aux].
  - repeat constructor. by apply Forall_reverse.
  - inversion_clear Hs as [|?? Hc Hs'].
    destruct skip as [|k]; [|by apply IH].
    destruct (is_delim c).
    { constructor; [by apply Forall_reverse|]. by apply IH. }
    destruct (starts_with and_word (c :: s)).
    { constructor; [by apply Forall_reverse|]. by apply IH. }
    apply IH; [by constructor|done].
Qed.

Lemma re_split_aux_no_delim s : ∀ skip cur,
  Forall (λ c, is_delim c = false) cur →
  Forall (Forall (λ c, is_delim c = false)) (re_split_aux skip cur s).
Proof.
  induction s as [|c s IH]; intros skip cur Hcur; cbn [re_split_aux].
  - repeat constructor. by apply Forall_reverse.
  - destruct skip as [|k]; [|by apply IH].
    destruct (is_delim c) eqn:Hc.
    { constructor; [by apply Forall_reverse|]. by apply IH. }
    destruct (starts_with and_word (c :: s)).
    { constructor; [by apply Forall_reverse|]. by apply IH. }
    apply IH. by constructor.
Qed.

Lemma allowed_no_delim c :
  allowed c = true → is_delim c = false → letter_digit_space c = true.
Proof.
  unfold letter_digit_space, is_delim. intros H1 H2.
  char_props. lia.
Qed.

Section ParseSkillsProperties.
Context {L : StrLower}.

(** X3: the skills that parse_skills returns are the pieces of the
    normalized text between commas and the word "and", stripped, the
    empty ones left out: every such piece is returned, once, and the
    skills stand in the order of the first occurrences of the pieces,
    so that before a skill stand exactly the pieces that occur before
    its first occurrence.  Every skill is a non-empty string of
    lowercase letters, digits and spaces (no comma), with no whitespace
    at either end; and a value that normalizes to the empty string, as
    every value that is not a string does, gives no skill. *)
Theorem parse_skills_well_formed (v : pyval) :
  let pieces := strip <$> filter (λ p, strip p ≠ []) (re_split (normalize_text v)) in
  NoDup (parse_skills v)
  ∧ parse_skills v `sublist_of` pieces
  ∧ (∀ x, x ∈ parse_skills v ↔ x ∈ pieces)
  ∧ (∀ before y after, parse_skills v = before ++ y :: after →
       ∃ pre post, pieces = pre ++ y :: post ∧ (y ∉ pre)
                 ∧ ∀ x, x ∈ before ↔ x ∈ pre)
  ∧ Forall (λ x, x ≠ []
                 ∧ Forall (λ c, letter_digit_space c = true) x
                 ∧ (∀ c, x !! 0%nat = Some c → is_space c = false)
                 ∧ (∀ c, last x = Some c → is_space c = false))
           (parse_skills v)
  ∧ (normalize_text v = [] → parse_skills v = []).
Proof.
  intros pieces. unfold parse_skills, fromkeys. fold pieces.
  destruct (fromkeys_aux_spec [] pieces) as [Hnd Hin].
  split; [done|]. split; [apply fromkeys_aux_sublist|]. split.
  { intros x. rewrite Hin. split; [tauto|]. intros Hx. split; [done|].
    apply not_elem_of_nil. }
  split.
  { intros before y after Hres.
    destruct (fromkeys_aux_first [] pieces before y after Hres)
      as (pre & post & Hp & Hy & Hb).
    exists pre, post. split; [done|]. split; [done|]. intros x. rewrite Hb.
    split; [tauto|]. intros Hx. split; [done|]. apply not_elem_of_nil. }
  split.
  - apply Forall_forall. intros x Hx. apply Hin in Hx as [Hx _].
    apply list_elem_of_fmap in Hx as (p & -> & Hp).
    apply list_elem_of_filter in Hp as [Hne Hp].
    split; [done|].
    assert (Forall (λ c, allowed c = true) p ∧ Forall (λ c, is_delim c = false) p)
      as [Hall Hnd'].
    { split.
      - pose proof (re_split_aux_Forall (λ c, allowed c = true)
                      (normalize_text v) 0 []) as H.
        eapply Forall_forall in H; [exact H|constructor| |exact Hp].
        destruct (normalize_text_words v) as (ws & Hws & ->).
        by apply join_allowed.
      - pose proof (re_split_aux_no_delim (normalize_text v) 0 []) as H.
        eapply Forall_forall in H; [exact H|constructor|exact Hp]. }
    split; [|split].
    + unfold strip. apply rstrip_Forall, lstrip_Forall.
      apply Forall_forall. intros c Hc.
      apply allowed_no_delim.
      * exact (proj1 (Forall_forall _ _) Hall c Hc).
      * exact (proj1 (Forall_forall _ _) Hnd' c Hc).
    + intros c Hc. unfold strip in Hc. by apply rstrip_first, lstrip_first in Hc.
    + intros c. unfold strip. apply rstrip_last.
  - intros Hempty. unfold pieces. by rewrite Hempty.
Qed.
End ParseSkillsProperties.

(** ** jaccard_score, through the two sets it builds *)

Lemma Qc_of_nat_pos (n : nat) : n ≠ 0%nat → (0 < Qc_of_Z (Z.of_nat n))%Qc.
Proof.
  intros Hn. rewrite <- Z2Qc_inj_0. apply (proj1 (Z2Qc_inj_lt _ _)). lia.
Qed.

Lemma Qc_of_nat_ne_0 (n : nat) : n ≠ 0%nat → Qc_of_Z (Z.of_nat n) ≠ 0%Qc.
Proof. intros Hn. rewrite <- Z2Qc_inj_0. intros H%Z2Qc_inj. lia. Qed.

Lemma Qc_div_nat_bounds (a b : nat) :
  (a ≤ b)%nat → b ≠ 0%nat →
  (0 ≤ Qc_of_Z (Z.of_nat a) / Qc_of_Z (Z.of_nat b)
   ∧ Qc_of_Z (Z.of_nat a) / Qc_of_Z (Z.of_nat b) ≤ 1)%Qc.
Proof.
  intros Hab Hb. pose proof (Qc_of_nat_pos b Hb) as Hpos. split.
  - apply Qcmult_nonneg_nonneg.
    + rewrite <- Z2Qc_inj_0. apply (proj1 (Z2Qc_inj_le _ _)). lia.
    + apply Qclt_le_weak, Qcinv_pos, Hpos.
  - apply (Qcmult_le_mono_pos_l _ _ _ Hpos).
    rewrite Qcmult_div_r, Qcmult_1_r by by apply Qc_of_nat_ne_0.
    apply (proj1 (Z2Qc_inj_le _ _)). lia.
Qed.

Lemma Qc_div_nat_eq_1 (a b : nat) :
  b ≠ 0%nat → (Qc_of_Z (Z.of_nat a) / Qc_of_Z (Z.of_nat b))%Qc = 1%Qc → a = b.
Proof.
  intros Hb H. pose proof (Qc_of_nat_ne_0 b Hb) as Hne.
  assert (Qc_of_Z (Z.of_nat a) = Qc_of_Z (Z.of_nat b)) as Heq.
  { rewrite <- (Qcmult_div_r (Qc_of_Z (Z.of_nat a)) _ Hne), H. apply Qcmult_1_r. }
  apply Z2Qc_inj in Heq. lia.
Qed.

Lemma Qc_div_nat_eq_0 (a b : nat) :
  b ≠ 0%nat → (Qc_of_Z (Z.of_nat a) / Qc_of_Z (Z.of_nat b))%Qc = 0%Qc ↔ a = 0%nat.
Proof.
  intros Hb. pose proof (Qc_of_nat_ne_0 b Hb) as Hne. split.
  - intros H.
    assert (Qc_of_Z (Z.of_nat a) = Qc_of_Z 0) as Heq.
    { rewrite <- (Qcmult_div_r (Qc_of_Z (Z.of_nat a)) _ Hne), H, Z2Qc_inj_0.
      apply Qcmult_0_r. }
    apply Z2Qc_inj in Heq. lia.
  - intros ->. change (Z.of_nat 0) with 0. rewrite Z2Qc_inj_0.
    unfold Qcdiv. apply Qcmult_0_l.
Qed.

Section JaccardSets.
Context {L : StrLower}.

Lemma jaccard_score_skill_sets (X Y : list pyval) :
  jaccard_score X Y =
    if bool_decide (skill_set X ∪ skill_set Y = ∅) then 0%Qc
    else (Qc_of_Z (Z.of_nat (size (skill_set X ∩ skill_set Y)))
          / Qc_of_Z (Z.of_nat (size (skill_set X ∪ skill_set Y))))%Qc.
Proof.
  unfold jaccard_score. fold (skill_set X) (skill_set Y).
  destruct (bool_decide (skill_set X = ∅)) eqn:H1;
    destruct (bool_decide (skill_set Y = ∅)) eqn:H2; cbn [andb]; try done.
  apply bool_decide_eq_true in H1, H2. rewrite H1, H2.
  by rewrite (bool_decide_eq_true_2 _ (left_id_L ∅ (∪) ∅)).
Qed.

Lemma skill_set_perm (X X' : list pyval) : X ≡ₚ X' → skill_set X = skill_set X'.
Proof.
  intros H. unfold skill_set. apply list_to_set_perm_L.
  by rewrite H.
Qed.

Lemma skill_set_cons (x : pyval) (X : list pyval) :
  skill_set (x :: X) =
    if truthy x then {[ normalize_text x ]} ∪ skill_set X else skill_set X.
Proof.
  unfold skill_set. destruct (truthy x) eqn:Hx.
  - by rewrite filter_cons_True by done.
  - by rewrite filter_cons_False by congruence.
Qed.

(** X4: jaccard_score is symmetric, and lies between 0.0 and 1.0. *)
Theorem jaccard_score_symmetric_bounded (X Y : list pyval) :
  jaccard_score X Y = jaccard_score Y X
  ∧ (0 ≤ jaccard_score X Y)%Qc ∧ (jaccard_score X Y ≤ 1)%Qc.
Proof.
  split.
  - rewrite !jaccard_score_skill_sets.
    by rewrite (comm_L (∪) (skill_set Y)), (comm_L (∩) (skill_set Y)).
  - rewrite jaccard_score_skill_sets. case_bool_decide as Hu; [done|].
    apply Qc_div_nat_bounds.
    + apply subseteq_size. set_solver.
    + intros H0. apply Hu. apply size_empty_inv in H0. by apply leibniz_equiv.
Qed.

(** X5: the score is 1.0 exactly when the two lists give the same
    non-empty set of normalized skills, and 0.0 exactly when the two
    sets have no skill in common. *)
Theorem jaccard_score_one_zero (X Y : list pyval) :
  (jaccard_score X Y = 1%Qc ↔ skill_set X = skill_set Y ∧ skill_set X ≠ ∅)
  ∧ (jaccard_score X Y = 0%Qc ↔ skill_set X ∩ skill_set Y = ∅).
Proof.
  rewrite jaccard_score_skill_sets. case_bool_decide as Hu.
  - assert (skill_set X = ∅ ∧ skill_set Y = ∅) as [HX HY].
    { split; apply leibniz_equiv; set_solver. }
    split.
    + split; [done|]. intros [_ H]. done.
    + split; [|done]. intros _. rewrite HX. apply leibniz_equiv. set_solver.
  - assert (size (skill_set X ∪ skill_set Y) ≠ 0%nat) as Hsz.
    { intros H0. apply Hu. apply size_empty_inv in H0. by apply leibniz_equiv. }
    split.
    + split.
      * intros H%Qc_div_nat_eq_1; [|done].
        assert (skill_set X ∩ skill_set Y = skill_set X ∪ skill_set Y) as Heq.
        { apply set_subseteq_size_eq; [set_solver|lia]. }
        split; [apply leibniz_equiv; set_solver|].
        intros HX. apply Hu. apply leibniz_equiv. set_solver.
      * intros [Heq Hne]. rewrite <- Heq.
        assert (skill_set X ∪ skill_set X = skill_set X) as -> by (apply leibniz_equiv; set_solver).
        assert (skill_set X ∩ skill_set X = skill_set X) as -> by (apply leibniz_equiv; set_solver).
        apply Qc_div_nat_self. intros H0. apply Hne.
        apply size_empty_inv in H0. by apply leibniz_equiv.
    + rewrite (Qc_div_nat_eq_0 _ _ Hsz). split.
      * intros H0. apply size_empty_inv in H0. by apply leibniz_equiv.
      * intros ->. apply size_empty.
Qed.

(** X6: the score does not depend on the order of a list, nor on how
    often a skill occurs in it, nor on which of two skills of the same
    normalized text stands in it. *)
Theorem jaccard_score_list_as_set (X X' Y : list pyval) (x x' : pyval) :
  (X ≡ₚ X' → jaccard_score X Y = jaccard_score X' Y)
  ∧ jaccard_score (x :: x :: X) Y = jaccard_score (x :: X) Y
  ∧ (truthy x = true → truthy x' = true → normalize_text x = normalize_text x' →
       jaccard_score (x :: X) Y = jaccard_score (x' :: X) Y).
Proof.
  split; [|split].
  - intros H. by rewrite !jaccard_score_skill_sets, (skill_set_perm X X' H).
  - rewrite !jaccard_score_skill_sets.
    replace (skill_set (x :: x :: X)) with (skill_set (x :: X)); [done|].
    rewrite (skill_set_cons x (x :: X)). destruct (truthy x) eqn:Hx; [|done].
    rewrite skill_set_cons, Hx. apply leibniz_equiv. set_solver.
  - intros Hx Hx' Hn. rewrite !jaccard_score_skill_sets.
    by rewrite (skill_set_cons x), (skill_set_cons x'), Hx, Hx', Hn.
Qed.
End JaccardSets.

(** ** _normalize_embeddings *)

Section EmbeddingShape.
Context {F : Type} {FO : FloatOps F}.

Lemma length_normalize_embeddings (embs : list (list F)) :
  length (_normalize_embeddings embs) = length embs.
Proof.
  unfold _normalize_embeddings, div_rows, fix_zero_norms, row_norms.
  rewrite length_zip_with, !length_fmap. lia.
Qed.

(** X7: _normalize_embeddings keeps the shape of the matrix: as many
    rows, and in every row as many coordinates. *)
Theorem normalize_embeddings_shape (embs : list (list F)) :
  length (_normalize_embeddings embs) = length embs
  ∧ Forall2 (λ row row', length row' = length row) embs (_normalize_embeddings embs).
Proof.
  split; [apply length_normalize_embeddings|].
  apply Forall2_same_length_lookup. split.
  - by rewrite length_normalize_embeddings.
  - intros i row row' Hrow Hrow'.
    rewrite (normalize_embeddings_row embs i row Hrow) in Hrow'.
    injection Hrow' as <-. by rewrite length_fmap.
Qed.

(** X8: where 1.0 is not zero and [x / 1.0] is [x], no divisor of
    _normalize_embeddings is zero; a row whose computed norm is zero is
    returned as it is, and any other row is divided, coordinate by
    coordinate, by its computed norm. *)
Theorem normalize_embeddings_divisors (embs : list (list F)) (i : nat) (row : list F) :
  feq0 (of_Qc 1) = false →
  (∀ x, fdiv x (of_Qc 1) = x) →
  embs !! i = Some row →
  let norm := fsqrt (fsum ((λ x, fmul x x) <$> row)) in
  ∃ d, fix_zero_norms (row_norms embs) !! i = Some d
     ∧ feq0 d = false
     ∧ _normalize_embeddings embs !! i = Some ((λ x, fdiv x d) <$> row)
     ∧ (feq0 norm = true → _normalize_embeddings embs !! i = Some row)
     ∧ (feq0 norm = false → d = norm).
Proof.
  intros H1 Hdiv Hi norm.
  exists (if feq0 norm then of_Qc 1 else norm).
  pose proof (normalize_embeddings_row embs i row Hi) as Hrow. cbn zeta in Hrow.
  fold norm in Hrow. split; [|split; [|split; [|split]]].
  - unfold fix_zero_norms, row_norms. by rewrite !list_lookup_fmap, Hi.
  - by destruct (feq0 norm) eqn:E.
  - exact Hrow.
  - intros Hz. rewrite Hrow, Hz. f_equal.
    rewrite <- (list_fmap_id row) at 2. apply list_fmap_ext. intros j x _. apply Hdiv.
  - by intros ->.
Qed.
End EmbeddingShape.

Lemma exact_div_1 (x : Qc) : fdiv (FloatOps:=exact_floats) x (of_Qc (FloatOps:=exact_floats) 1) = x.
Proof.
  cbn. unfold Qcdiv. change (/ 1)%Qc with 1%Qc. apply Qcmult_1_r.
Qed.

Lemma normalize_embeddings_divisors_witness :
  feq0 (FloatOps:=exact_floats) (of_Qc (FloatOps:=exact_floats) 1) = false
  ∧ ∃ d, fix_zero_norms (FO:=exact_floats) (row_norms (FO:=exact_floats) [[Qc_of_Z 3; Qc_of_Z 4]]) !! 0%nat
         = Some d
       ∧ feq0 (FloatOps:=exact_floats) d = false.
Proof.
  assert (feq0 (FloatOps:=exact_floats) (of_Qc (FloatOps:=exact_floats) 1) = false) as H1
    by reflexivity.
  split; [exact H1|].
  destruct (normalize_embeddings_divisors (FO:=exact_floats) [[Qc_of_Z 3; Qc_of_Z 4]] 0
              [Qc_of_Z 3; Qc_of_Z 4] H1 exact_div_1 eq_refl) as (d & Hd & Hnz & _).
  exists d. split; [exact Hd|exact Hnz].
Defined.

(** ** Recommender.__init__ *)

Lemma fillna_not_None v : fillna v ≠ PNone.
Proof. by destruct v. Qed.

Section InitProperties.
Context {L : StrLower} {F : Type} {FO : FloatOps F} {E : Encoder F}
        {SV : SortValues F}.

Lemma init_lengths (df : list company) :
  length (companies (init df)) = length df
  ∧ length (embeddings (init df)) = length df.
Proof.
  unfold init. cbn [companies embeddings].
  rewrite length_normalize_embeddings. unfold encode.
  by rewrite !length_fmap.
Qed.

(** X9: the recommender that __init__ builds has one row and one
    embedding for every row of the file; no cell of its table is
    missing; and in every row the combined text and the government
    flag are the ones computed from the other cells of that row. *)
Theorem init_invariants (df : list company) :
  length (companies (init df)) = length df
  ∧ length (embeddings (init df)) = length df
  ∧ Forall (λ r, CompanyName r ≠ PNone ∧ PostedRole r ≠ PNone ∧ Industry r ≠ PNone
                 ∧ Sector r ≠ PNone ∧ Location r ≠ PNone ∧ SkillsRequired r ≠ PNone
                 ∧ Stipend r ≠ PNone
                 ∧ combined_text r
                   = py_str (SkillsRequired r) ++ py " " ++ py_str (PostedRole r)
                     ++ py " " ++ py_str (Industry r)
                 ∧ IsGovernment r = detect_gov (CompanyName r) (Sector r))
           (companies (init df)).
Proof.
  destruct (init_lengths df) as [H1 H2]. split; [done|]. split; [done|].
  unfold init. cbn [companies]. apply Forall_fmap, Forall_forall.
  intros c _. cbn. repeat split; apply fillna_not_None.
Qed.

(** X10: on a recommender built by __init__, with a library sort that
    keeps its promise, recommend with [0 <= top_k] returns [top_k]
    records, or as many as the file has rows when that is less. *)
Theorem recommend_init_count (df : list company) text skills pref is_rural
    (top_k : Z) w :
  sort_values_spec SV →
  0 ≤ top_k →
  length (recommend (init df) text skills pref is_rural top_k w)
  = min (Z.to_nat top_k) (length df).
Proof.
  intros HSV Hk. destruct (init_lengths df) as [H1 H2].
  unfold recommend, head. rewrite (proj2 (Z.leb_le 0 top_k) Hk).
  rewrite length_take, (Permutation_length (sort_values_perm _ HSV _)).
  rewrite length_zip, length_final_score by congruence. lia.
Qed.

(** X11: on a recommender built by __init__, the government bonus of
    the entry of a row of the file is 1.0 when the candidate is rural
    and one of the keywords occurs in the lowercase of the company name,
    a space and the sector of the row, and 0.0 otherwise. *)
Theorem gov_bonus_init (df : list company) (is_rural : bool) (i : nat) (c : company) :
  df !! i = Some c →
  let t := str_lower (py_str (fillna (c_CompanyName c)) ++ py " "
                      ++ py_str (fillna (c_Sector c))) in
  let keyword := ∃ k u v, k ∈ gov_keywords ∧ t = u ++ k ++ v in
  ∃ b, gov_bonus (init df) is_rural !! i = Some b
     ∧ ((b = 1%Qc ∧ is_rural = true ∧ keyword)
        ∨ (b = 0%Qc ∧ (is_rural = false ∨ ¬ keyword))).
Proof.
  intros Hi t keyword.
  assert (detect_gov (fillna (c_CompanyName c)) (fillna (c_Sector c)) = true ↔ keyword)
    as Hdet.
  { unfold detect_gov. fold t. rewrite existsb_exists. unfold keyword. split.
    - intros (k & Hk & Hs). apply is_substring_spec in Hs as (u & v & Hs).
      exists k, u, v. split; [by apply list_elem_of_In|done].
    - intros (k & u & v & Hk & Hs). exists k. split; [by apply list_elem_of_In|].
      apply is_substring_spec. by exists u, v. }
  unfold gov_bonus, init. cbn [companies]. destruct is_rural.
  - rewrite !list_lookup_fmap, Hi. cbn [fmap option_fmap option_map].
    unfold make_row. cbn [IsGovernment].
    eexists. split; [reflexivity|].
    destruct (detect_gov _ _) eqn:Hd.
    + left. split; [done|]. split; [done|]. by apply Hdet.
    + right. split; [done|]. right. intros Hk%Hdet. congruence.
  - exists 0%Qc. split; [|by right; split; [|left]].
    apply lookup_replicate_2. rewrite length_fmap. by apply lookup_lt_Some in Hi.
Qed.
End InitProperties.

Lemma recommend_init_count_witness :
  sort_values_spec (FO:=exact_floats) (stable_sort (FO:=exact_floats))
  ∧ 0 ≤ 5
  ∧ length (sample_recommend (stable_sort (FO:=exact_floats)) true 5) = 2%nat.
Proof.
  split; [exact exact_stable_sort_spec|]. split; [lia|].
  exact (recommend_init_count (L:=ascii_lower) (FO:=exact_floats) (E:=length_encoder)
           (SV:=stable_sort (FO:=exact_floats)) sample_catalog
           (PStr (py "python dev")) (PStr (py "Python, SQL")) (PStr (py "pune"))
           true 5 (default_weights (FO:=exact_floats)) exact_stable_sort_spec
           ltac:(lia)).
Defined.

Lemma gov_bonus_init_witness :
  sample_catalog !! 1%nat = Some (sample_company "Rural Development Trust")
  ∧ ∃ b, gov_bonus (init (L:=ascii_lower) (FO:=exact_floats) (E:=length_encoder)
                      sample_catalog) true !! 1%nat = Some b.
Proof.
  split; [reflexivity|].
  destruct (gov_bonus_init (L:=ascii_lower) (FO:=exact_floats) (E:=length_encoder)
              sample_catalog true 1 _ eq_refl) as (b & Hb & _).
  exists b. exact Hb.
Defined.

(** ** resume_parser.py *)

Lemma has_key_app k d1 d2 : has_key k (d1 ++ d2) = has_key k d1 || has_key k d2.
Proof. unfold has_key. apply existsb_app. Qed.

Lemma filter_ext_elem_of {A} (P Q : A → Prop) `{!∀ x, Decision (P x)}
    `{!∀ x, Decision (Q x)} (l : list A) :
  (∀ x, x ∈ l → P x ↔ Q x) → filter P l = filter Q l.
Proof.
  induction l as [|x l IH]; intros Hext; [done|].
  rewrite !filter_cons. rewrite IH by (intros y Hy; apply Hext; by right).
  destruct (decide (P x)) as [HP|HP], (decide (Q x)) as [HQ|HQ]; try done.
  - destruct HQ. apply Hext; [left|done].
  - destruct HP. apply Hext; [left|done].
Qed.

(** The loop of setdefault appends, in the order of the keys, one item
    for each key that the dict has not. *)
Lemma foldl_setdefault_missing v ks : NoDup ks → ∀ d,
  foldl (λ d k, setdefault k v d) d ks
  = d ++ ((λ k, (k, v)) <$> filter (λ k, has_key k d = false) ks).
Proof.
  induction 1 as [|k ks Hk Hnd IH]; intros d; cbn [foldl].
  - by rewrite app_nil_r.
  - rewrite IH, filter_cons. unfold setdefault. destruct (has_key k d) eqn:Hd.
    + by rewrite decide_False by done.
    + rewrite decide_True by done. rewrite fmap_cons, <- app_assoc. cbn [app].
      do 3 f_equal. apply filter_ext_elem_of. intros k' Hk'.
      rewrite has_key_app. unfold has_key at 2. cbn [existsb fst].
      rewrite bool_decide_eq_false_2 by (intros ->; done).
      by rewrite !orb_false_r.
Qed.

Lemma profile_keys_NoDup : NoDup profile_keys.
Proof. apply (bool_decide_unpack _). vm_compute. exact I. Qed.

Lemma drop_until_spec c s :
  ∃ u, s = u ++ drop_until c s ∧ (c ∉ u)
     ∧ (drop_until c s = [] ∨ drop_until c s !! 0%nat = Some c).
Proof.
  induction s as [|x s (u & Hs & Hu & Hd)].
  - exists []. split; [done|]. split; [apply not_elem_of_nil|by left].
  - cbn [drop_until]. destruct (N.eqb_spec x c) as [->|Hne].
    + exists []. split; [done|]. split; [apply not_elem_of_nil|by right].
    + exists (x :: u). split; [by rewrite Hs at 1|]. split; [|done].
      rewrite elem_of_cons. intros [?|?]; [congruence|done].
Qed.

Section ResumeFurther.
Context {L : StrLower} {RE : ResumeEnv}.

(** X12: parse_resume_with_llm returns what safe_json_from_llm returns
    on the text of the resume, and the result of fallback_extract on
    that same text when safe_json_from_llm raises, as it does whenever
    no Groq client is configured.  The text is the text of the PDF, or
    the decoded bytes when the reader raised or found only whitespace. *)
Theorem parse_resume_with_llm_paths (file_bytes : list Byte.byte) :
  parse_resume_with_llm file_bytes =
    match safe_json_from_llm (resume_text file_bytes) with
    | Ok v => Ok v
    | Raise _ => Ok (fallback_extract (resume_text file_bytes))
    end
  ∧ (groq_client = false →
       parse_resume_with_llm file_bytes
       = Ok (fallback_extract (resume_text file_bytes))).
Proof.
  assert (parse_resume_with_llm file_bytes =
            match safe_json_from_llm (resume_text file_bytes) with
            | Ok v => Ok v
            | Raise _ => Ok (fallback_extract (resume_text file_bytes))
            end) as H.
  { unfold parse_resume_with_llm, extract_text_from_pdf_bytes, resume_text.
    destruct (pdf_text file_bytes) as [t|e]; cbn [try_except rbind].
    - destruct (bool_decide (strip t = [])); cbn [try_except rbind]; done.
    - done. }
  split; [exact H|]. intros Hc. rewrite H.
  unfold safe_json_from_llm. by rewrite Hc.
Qed.

(** X13: when safe_json_from_llm returns, the model answered the prompt
    with a text that holds a JSON object, and the result is that object
    with every item the model gave, in its order and with its value,
    followed by an empty string for each profile key the model left
    out, and for no other key, in the order of the profile keys; so the
    result has all eight profile keys. *)
Theorem safe_json_from_llm_keeps_items (text : str) (v : jval) :
  safe_json_from_llm text = Ok v →
  ∃ raw json_str d,
    chat_completion (prompt_of text) = Ok (Some raw)
    ∧ search_braces (strip raw) = Some json_str
    ∧ json_loads json_str = Ok (JDict d)
    ∧ v = JDict (d ++ ((λ k, (k, JStr [])) <$>
                         filter (λ k, has_key k d = false) profile_keys))
    ∧ ∀ k, k ∈ profile_keys →
        has_key k (d ++ ((λ k, (k, JStr [])) <$>
                           filter (λ k, has_key k d = false) profile_keys)) = true.
Proof.
  unfold safe_json_from_llm. fold (prompt_of text).
  destruct groq_client; cbn [negb]; [|done].
  destruct (chat_completion (prompt_of text)) as [[raw|]|e]; cbn [rbind]; [|done|done].
  destruct (search_braces (strip raw)) as [json_str|] eqn:Hs; [|done].
  destruct (json_loads json_str) as [parsed|e] eqn:Hj; cbn [try_except rbind]; [|done].
  destruct parsed as [| | | | |d]; try done.
  intros Hv. rewrite (foldl_setdefault_missing _ _ profile_keys_NoDup) in Hv.
  exists raw, json_str, d.
  split; [done|]. split; [done|]. split; [done|]. split; [congruence|].
  intros k Hk. rewrite has_key_app. destruct (has_key k d) eqn:Hd; [done|].
  cbn [orb]. unfold has_key. apply existsb_exists. exists (k, JStr []).
  split; [|by apply bool_decide_eq_true].
  apply list_elem_of_In, list_elem_of_fmap. exists k. split; [done|].
  by apply list_elem_of_filter.
Qed.

(** X14: what safe_json_from_llm raises, and when.  With no Groq client
    it raises the RuntimeError.  With one, it raises what the chat
    completion raised; an AttributeError when the message has no
    content; the ValueError "LLM did not return JSON-like output." when
    the answer holds no braces; a ValueError whenever json.loads raises
    on the text in braces, whatever json.loads raised; and an
    AttributeError when json.loads returns a value that is not an
    object.  It raises in no other case. *)
Theorem safe_json_from_llm_raises (text : str) :
  (∀ e, safe_json_from_llm text = Raise e →
     (groq_client = false
      ∧ e = Exception "RuntimeError" "GROQ_API_KEY not set in environment.")
     ∨ (groq_client = true
        ∧ (chat_completion (prompt_of text) = Raise e
           ∨ (chat_completion (prompt_of text) = Ok None
              ∧ ∃ msg, e = Exception "AttributeError" msg)
           ∨ ∃ raw, chat_completion (prompt_of text) = Ok (Some raw)
               ∧ ((search_braces (strip raw) = None
                   ∧ e = Exception "ValueError" "LLM did not return JSON-like output.")
                  ∨ ∃ json_str, search_braces (strip raw) = Some json_str
                      ∧ ((∃ e', json_loads json_str = Raise e'
                                ∧ ∃ msg, e = Exception "ValueError" msg)
                         ∨ (∃ parsed, json_loads json_str = Ok parsed
                                      ∧ (∀ d, parsed ≠ JDict d)
                                      ∧ ∃ msg, e = Exception "AttributeError" msg))))))
  ∧ (groq_client = false →
       safe_json_from_llm text
       = Raise (Exception "RuntimeError" "GROQ_API_KEY not set in environment."))
  ∧ (groq_client = true →
       (∀ e, chat_completion (prompt_of text) = Raise e →
          safe_json_from_llm text = Raise e)
       ∧ (chat_completion (prompt_of text) = Ok None →
            ∃ msg, safe_json_from_llm text = Raise (Exception "AttributeError" msg))
       ∧ (∀ raw, chat_completion (prompt_of text) = Ok (Some raw) →
            (search_braces (strip raw) = None →
               safe_json_from_llm text
               = Raise (Exception "ValueError" "LLM did not return JSON-like output."))
            ∧ (∀ json_str, search_braces (strip raw) = Some json_str →
                 (∀ e', json_loads json_str = Raise e' →
                    ∃ msg, safe_json_from_llm text = Raise (Exception "ValueError" msg))
                 ∧ (∀ parsed, json_loads json_str = Ok parsed →
                      (∀ d, parsed ≠ JDict d) →
                      ∃ msg, safe_json_from_llm text
                             = Raise (Exception "AttributeError" msg))))).
Proof.
  unfold safe_json_from_llm. fold (prompt_of text).
  destruct groq_client; cbn [negb].
  - split; [|split; [done|]].
    + intros e H. right. split; [done|].
      destruct (chat_completion (prompt_of text)) as [[raw|]|e']; cbn [rbind] in H.
      * right. right. exists raw. split; [done|].
        destruct (search_braces (strip raw)) as [json_str|].
        -- right. exists json_str. split; [done|].
           destruct (json_loads json_str) as [parsed|e'']; cbn [try_except rbind] in H.
           ++ right. exists parsed. split; [done|].
              destruct parsed; try (injection H as <-; split; [done|by eexists]).
              discriminate H.
           ++ left. exists e''. split; [done|]. injection H as <-. by eexists.
        -- left. injection H as <-. done.
      * right. left. split; [done|]. injection H as <-. by eexists.
      * left. by injection H as <-.
    + intros _. split; [by intros e ->|]. split; [intros ->; by eexists|].
      intros raw ->. cbn [rbind]. split; [by intros ->|].
      intros json_str ->. split.
      * intros e' ->. cbn [try_except rbind]. by eexists.
      * intros parsed -> Hnd. cbn [try_except rbind].
        destruct parsed; try by eexists. by destruct (Hnd d).
  - split; [|split; [done|done]]. intros e [= <-]. by left.
Qed.
End ResumeFurther.

(** X15: the search for [\{.*\}] returns the part of the text from its
    first opening brace to the last closing brace after it, and finds
    nothing exactly when no opening brace has a closing brace after
    it. *)
Theorem search_braces_spec (raw : str) :
  match search_braces raw with
  | Some m =>
      ∃ u v, raw = u ++ m ++ v ∧ (123%N ∉ u) ∧ (125%N ∉ v)
             ∧ m !! 0%nat = Some 123%N ∧ last m = Some 125%N
  | None => ¬ ∃ u w v, raw = u ++ [123%N] ++ w ++ [125%N] ++ v
  end.
Proof.
  unfold search_braces.
  destruct (drop_until_spec 123%N raw) as (u & Hraw & Hu & Hopen).
  set (x := drop_until 123%N raw) in *.
  destruct (drop_until_spec 125%N (reverse x)) as (rv & Hrev & Hrv & Hclose).
  set (rm := drop_until 125%N (reverse x)) in *.
  assert (x = reverse rm ++ reverse rv) as Hx.
  { rewrite <- reverse_app, <- Hrev. by rewrite reverse_involutive. }
  destruct (reverse rm) as [|c m] eqn:Hm.
  - intros (u' & w & v' & Hraw').
    assert ((125%N : char) ∈ x) as Hin.
    { rewrite Hraw in Hraw'. apply app_eq_inv in Hraw' as [(k & Hk1 & Hk)|(k & Hk1 & Hk)].
      - destruct k as [|c k].
        + cbn in Hk. rewrite <- Hk. set_solver.
        + injection Hk as <- _. exfalso. apply Hu. rewrite Hk1. set_solver.
      - rewrite Hk. set_solver. }
    rewrite Hx, app_nil_l, elem_of_reverse in Hin. done.
  - exists u, (reverse rv). rewrite <- Hx. split; [done|]. split; [done|].
    split; [by rewrite elem_of_reverse|].
    assert (rm ≠ []) as Hne by (intros ->; done).
    split.
    + destruct Hopen as [Hopen|Hopen].
      * rewrite Hopen in Hx. by destruct rv using rev_ind; try rewrite reverse_snoc in Hx.
      * rewrite Hx in Hopen. exact Hopen.
    + destruct Hclose as [Hclose|Hclose]; [done|].
      destruct rm as [|c' rm']; [done|]. injection Hclose as ->.
      rewrite reverse_cons in Hm. rewrite <- Hm. apply last_snoc.
Qed.

(** ** utils.py: the frame that a save writes *)

Lemma dict_get_elem k (record : list (str * pyval)) :
  truthy (dict_get k record) = true → (k, dict_get k record) ∈ record.
Proof.
  induction record as [|[k' v] record IH]; [done|].
  cbn [dict_get]. case_bool_decide as Hk.
  - subst. intros _. left.
  - intros H. right. by apply IH.
Qed.

Lemma dict_get_NoDup k v (record : list (str * pyval)) :
  NoDup record.*1 → (k, v) ∈ record → dict_get k record = v.
Proof.
  induction record as [|[k' v'] record IH]; intros Hnd Hin; [by apply elem_of_nil in Hin|].
  cbn [fmap list_fmap fst] in Hnd. apply NoDup_cons in Hnd as [Hk' Hnd].
  cbn [dict_get]. apply elem_of_cons in Hin as [[= -> ->]|Hin].
  - by rewrite bool_decide_eq_true_2.
  - case_bool_decide as Hk; [|by apply IH].
    subst. exfalso. apply Hk'. apply list_elem_of_fmap. by exists (k, v).
Qed.

Lemma add_missing_columns_length keys : ∀ df,
  length (df_rows (add_missing_columns keys df)) = length (df_rows df).
Proof.
  unfold add_missing_columns.
  induction keys as [|key keys IH]; intros df; [done|].
  cbn [foldl]. rewrite IH. case_bool_decide; [done|].
  cbn [df_rows]. by rewrite length_fmap.
Qed.

Lemma add_missing_columns_prefix keys : ∀ df,
  df_columns df `prefix_of` df_columns (add_missing_columns keys df).
Proof.
  unfold add_missing_columns.
  induction keys as [|key keys IH]; intros df; [done|].
  cbn [foldl]. etrans; [|apply IH]. case_bool_decide; [done|].
  cbn [df_columns]. by apply prefix_app_r.
Qed.

Lemma add_missing_columns_keys keys : ∀ df k,
  k ∈ keys → k ∈ df_columns (add_missing_columns keys df).
Proof.
  unfold add_missing_columns.
  induction keys as [|key keys IH]; intros df k Hk; [by apply elem_of_nil in Hk|].
  cbn [foldl]. apply elem_of_cons in Hk as [->|Hk]; [|by apply IH].
  eapply elem_of_prefix; [|apply (add_missing_columns_prefix keys)].
  case_bool_decide; [done|]. cbn [df_columns]. set_solver.
Qed.

Lemma add_missing_columns_id keys : ∀ df,
  Forall (λ k, k ∈ df_columns df) keys → add_missing_columns keys df = df.
Proof.
  unfold add_missing_columns.
  induction keys as [|key keys IH]; intros df Hk; [done|].
  inversion_clear Hk as [|?? Hkey Hkeys]. cbn [foldl].
  rewrite bool_decide_eq_true_2 by done. by apply IH.
Qed.

Lemma add_missing_columns_row keys : ∀ df i r,
  df_rows df !! i = Some r →
  ∃ r', df_rows (add_missing_columns keys df) !! i = Some r'
      ∧ (∀ k, k ∈ df_columns df → r' !! k = r !! k)
      ∧ (∀ k, r' !! k = r !! k ∨ r' !! k = Some (PStr [])).
Proof.
  unfold add_missing_columns.
  induction keys as [|key keys IH]; intros df i r Hr.
  - exists r. split; [done|]. split; [done|]. by left.
  - cbn [foldl]. case_bool_decide as Hkey; [by apply IH|].
    destruct (IH {| df_columns := df_columns df ++ [key];
                    df_rows := <[key := PStr []]> <$> df_rows df |} i
                 (<[key := PStr []]> r)) as (r' & Hr' & Hcols & Hcells).
    { cbn [df_rows]. by rewrite list_lookup_fmap, Hr. }
    exists r'. split; [done|]. split.
    + intros k Hk. rewrite Hcols by (cbn [df_columns]; set_solver).
      apply lookup_insert_ne. intros ->. done.
    + intros k. destruct (Hcells k) as [Hc|Hc]; [|by right].
      rewrite Hc. destruct (decide (key = k)) as [->|Hne].
      * right. apply lookup_insert_eq.
      * left. by apply lookup_insert_ne.
Qed.

Lemma update_rows_columns email record : ∀ df,
  df_columns (update_rows email record df) = df_columns df.
Proof.
  unfold update_rows. induction record as [|kv record IH]; intros df; [done|].
  cbn [foldl]. by rewrite IH.
Qed.

Lemma update_rows_rows email record : ∀ df,
  df_rows (update_rows email record df)
  = (λ r, foldl (update_row email) r record) <$> df_rows df.
Proof.
  unfold update_rows. induction record as [|kv record IH]; intros df.
  - cbn [foldl]. by rewrite list_fmap_id.
  - cbn [foldl]. rewrite IH. cbn [df_rows]. rewrite <- list_fmap_compose.
    done.
Qed.

Lemma update_row_other email record : ∀ r,
  r !! py "email" ≠ Some email → foldl (update_row email) r record = r.
Proof.
  induction record as [|kv record IH]; intros r Hr; [done|].
  cbn [foldl]. unfold update_row at 2. rewrite bool_decide_eq_false_2 by done.
  by apply IH.
Qed.

Lemma update_row_same email record : ∀ r,
  r !! py "email" = Some email →
  (∀ k v, (k, v) ∈ record → r !! k = Some v) →
  foldl (update_row email) r record = r.
Proof.
  induction record as [|[k v] record IH]; intros r Hr Hall; [done|].
  cbn [foldl]. unfold update_row at 2. rewrite bool_decide_eq_true_2 by done.
  cbn [fst snd]. rewrite insert_id by (apply Hall; left).
  apply IH; [done|]. intros k' v' Hin. apply Hall. by right.
Qed.

Lemma update_row_match email record : ∀ r,
  NoDup record.*1 →
  (∀ v, (py "email", v) ∈ record → v = email) →
  r !! py "email" = Some email →
  foldl (update_row email) r record !! py "email" = Some email
  ∧ ∀ k v, (k, v) ∈ record → foldl (update_row email) r record !! k = Some v.
Proof.
  induction record as [|[k0 v0] record IH]; intros r Hnd Hmail Hr.
  - split; [done|]. intros k v Hin. by apply elem_of_nil in Hin.
  - cbn [fmap list_fmap fst] in Hnd. apply NoDup_cons in Hnd as [Hk0 Hnd].
    cbn [foldl]. unfold update_row at 2 4. rewrite bool_decide_eq_true_2 by done.
    cbn [fst snd].
    assert (<[k0:=v0]> r !! py "email" = Some email) as Hr'.
    { destruct (decide (k0 = py "email")) as [->|Hne].
      - rewrite lookup_insert_eq. f_equal. apply Hmail. left.
      - by rewrite lookup_insert_ne. }
    destruct (IH (<[k0:=v0]> r) Hnd) as [Hm Hall]; [|done|].
    { intros v Hin. apply Hmail. by right. }
    split; [done|]. intros k v Hin. apply elem_of_cons in Hin as [[= -> ->]|Hin].
    + clear IH Hm Hall. assert (∀ rec (r : gmap str pyval),
        k0 ∉ rec.*1 → r !! py "email" = Some email → r !! k0 = Some v0 →
        foldl (update_row email) r rec !! k0 = Some v0) as Hkeep.
      { induction rec as [|[k1 v1] rec IHrec]; intros r1 Hk1 Hr1 Hv; [done|].
        cbn [fmap list_fmap fst] in Hk1. apply not_elem_of_cons in Hk1 as [Hne Hk1].
        cbn [foldl]. unfold update_row at 2. case_bool_decide as Hb.
        - cbn [fst snd]. destruct (decide (<[k1:=v1]> r1 !! py "email" = Some email))
            as [He|He].
          + apply IHrec; [done|done|]. by rewrite lookup_insert_ne.
          + rewrite update_row_other by done. by rewrite lookup_insert_ne.
        - by rewrite update_row_other. }
      apply Hkeep; [done|done|]. apply lookup_insert_eq.
    + by apply Hall.
Qed.

Lemma fromkeys_aux_NoDup_id seen l :
  NoDup l → (∀ x, x ∈ l → x ∉ seen) → fromkeys_aux seen l = l.
Proof.
  revert seen. induction l as [|x l IH]; intros seen Hnd Hseen; [done|].
  apply NoDup_cons in Hnd as [Hx Hnd]. cbn [fromkeys_aux].
  rewrite bool_decide_eq_false_2 by (apply Hseen; left).
  f_equal. apply IH; [done|]. intros y Hy. rewrite not_elem_of_cons. split.
  - intros ->. done.
  - apply Hseen. by right.
Qed.

Lemma filter_not_in_nil (cols l : list str) :
  (∀ x, x ∈ l → x ∈ cols) → filter (λ k, k ∉ cols) l = [].
Proof.
  induction l as [|x l IH]; intros Hin; [done|].
  rewrite filter_cons_False by (intros Hx; apply Hx, Hin; left).
  apply IH. intros y Hy. apply Hin. by right.
Qed.

Lemma append_record_columns_id record df :
  Forall (λ k, k ∈ df_columns df) record.*1 →
  df_columns (append_record record df) = df_columns df.
Proof.
  intros Hk. unfold append_record. cbn [df_columns].
  rewrite filter_not_in_nil; [by rewrite app_nil_r|].
  intros x Hx. unfold fromkeys in Hx.
  apply (proj2 (fromkeys_aux_spec [] record.*1)) in Hx as [Hx _].
  by eapply Forall_forall in Hk.
Qed.

Lemma upsert_columns (record : list (str * pyval)) (df : dataframe) :
  df_columns df `prefix_of` df_columns (upsert record df)
  ∧ Forall (λ k, k ∈ df_columns (upsert record df)) record.*1.
Proof.
  unfold upsert.
  pose proof (add_missing_columns_prefix record.*1 df) as Hpre.
  assert (Forall (λ k, k ∈ df_columns (add_missing_columns record.*1 df)) record.*1)
    as Hkeys.
  { apply Forall_forall. intros k Hk. by apply add_missing_columns_keys. }
  destruct (email_known _ _).
  - by rewrite update_rows_columns.
  - by rewrite append_record_columns_id.
Qed.

Lemma upsert_stored (record : list (str * pyval)) (df : dataframe) :
  truthy (dict_get (py "email") record) = true →
  NoDup record.*1 →
  let email := dict_get (py "email") record in
  (∃ r, r ∈ df_rows (upsert record df) ∧ r !! py "email" = Some email)
  ∧ (∀ r, r ∈ df_rows (upsert record df) → r !! py "email" = Some email →
       ∀ k v, (k, v) ∈ record → r !! k = Some v).
Proof.
  intros He Hnd email. unfold upsert. fold email.
  set (df1 := add_missing_columns record.*1 df).
  pose proof (dict_get_elem _ _ He) as Hmail. fold email in Hmail.
  assert (∀ v, (py "email", v) ∈ record → v = email) as Huniq.
  { intros v Hv. symmetry. by apply dict_get_NoDup. }
  destruct (email_known email df1) eqn:Hknown.
  - rewrite update_rows_rows.
    apply andb_true_iff in Hknown as [_ Hex].
    apply existsb_exists in Hex as (r0 & Hr0 & Hm0).
    apply bool_decide_eq_true in Hm0. apply list_elem_of_In in Hr0.
    split.
    + exists (foldl (update_row email) r0 record). split.
      * apply list_elem_of_fmap. by exists r0.
      * by apply update_row_match.
    + intros r Hr Hm k v Hin. apply list_elem_of_fmap in Hr as (r1 & -> & Hr1).
      destruct (decide (r1 !! py "email" = Some email)) as [Hm1|Hm1].
      * by apply update_row_match.
      * rewrite update_row_other in Hm by done. done.
  - unfold append_record. cbn [df_rows].
    assert (∀ k v, (k, v) ∈ record →
              (list_to_map record : gmap str pyval) !! k = Some v) as Hnew.
    { intros k v Hin. by apply elem_of_list_to_map_1. }
    split.
    + exists (list_to_map record). split; [set_solver|]. by apply Hnew.
    + intros r Hr Hm k v Hin. apply elem_of_app in Hr as [Hr|Hr].
      * exfalso. unfold email_known in Hknown.
        rewrite bool_decide_eq_true_2 in Hknown
          by (apply add_missing_columns_keys, list_elem_of_fmap; by exists (py "email", email)).
        cbn [andb] in Hknown.
        assert (existsb (λ r, bool_decide (r !! py "email" = Some email)) (df_rows df1)
                = true) as Hex; [|congruence].
        apply existsb_exists. exists r. split; [by apply list_elem_of_In|].
        by apply bool_decide_eq_true.
      * apply list_elem_of_singleton in Hr as ->. by apply Hnew.
Qed.

Lemma list_fmap_fixed {A} (f : A → A) (l : list A) :
  (∀ x, x ∈ l → f x = x) → f <$> l = l.
Proof.
  induction l as [|x l IH]; intros H; [done|].
  cbn [fmap list_fmap]. rewrite H by left. f_equal. apply IH.
  intros y Hy. apply H. by right.
Qed.

(** Saving a record into the frame that a save of it wrote changes
    nothing. *)
Lemma upsert_idempotent (record : list (str * pyval)) (df : dataframe) :
  truthy (dict_get (py "email") record) = true →
  NoDup record.*1 →
  upsert record (upsert record df) = upsert record df.
Proof.
  intros He Hnd. set (df1 := upsert record df).
  destruct (upsert_columns record df) as [_ Hkeys]. fold df1 in Hkeys.
  destruct (upsert_stored record df He Hnd) as [(r0 & Hr0 & Hm0) Hall].
  fold df1 in Hr0, Hall. cbn zeta in Hall.
  unfold upsert at 1. rewrite add_missing_columns_id by done.
  assert (email_known (dict_get (py "email") record) df1 = true) as ->.
  { unfold email_known. apply andb_true_iff. split.
    - apply bool_decide_eq_true.
      eapply Forall_forall in Hkeys; [exact Hkeys|].
      apply list_elem_of_fmap. exists (py "email", dict_get (py "email") record).
      split; [done|]. by apply dict_get_elem.
    - apply existsb_exists. exists r0. split; [by apply list_elem_of_In|].
      by apply bool_decide_eq_true. }
  pose proof (update_rows_columns (dict_get (py "email") record) record df1) as Hc.
  pose proof (update_rows_rows (dict_get (py "email") record) record df1) as Hr.
  rewrite list_fmap_fixed in Hr.
  - destruct (update_rows _ record df1), df1. cbn in Hc, Hr. by subst.
  - intros r Hin.
    destruct (decide (r !! py "email" = Some (dict_get (py "email") record)))
      as [Hm|Hm].
    + apply update_row_same; [done|]. by apply Hall.
    + by apply update_row_other.
Qed.

Section SaveProperties.
Context {CC : CsvCodec}.

Lemma save_writes_upsert (record : list (str * pyval)) (filepath : string)
    (fs : files) (df : dataframe) :
  truthy (dict_get (py "email") record) = true →
  load_students record filepath fs = Ok df →
  save_student_profile record filepath fs
  = match to_csv (upsert record df) filepath with
    | Written content => (Ok record, <[filepath := content]> fs)
    | WriteRaised e None => (Raise e, fs)
    | WriteRaised e (Some content) => (Raise e, <[filepath := content]> fs)
    end.
Proof.
  intros He Hl. unfold save_student_profile, upsert. by rewrite Hl, He.
Qed.

Lemma save_written (record : list (str * pyval)) (filepath : string)
    (fs : files) (df : dataframe) (content : list Byte.byte) :
  truthy (dict_get (py "email") record) = true →
  load_students record filepath fs = Ok df →
  to_csv (upsert record df) filepath = Written content →
  save_student_profile record filepath fs = (Ok record, <[filepath := content]> fs).
Proof. intros He Hl Hw. by rewrite (save_writes_upsert _ _ _ _ He Hl), Hw. Qed.

(** A save that returns has passed the email check and the write. *)
Lemma save_returned (record r : list (str * pyval)) (filepath : string)
    (fs : files) (df : dataframe) :
  load_students record filepath fs = Ok df →
  (save_student_profile record filepath fs).1 = Ok r →
  truthy (dict_get (py "email") record) = true
  ∧ r = record
  ∧ ∃ content, to_csv (upsert record df) filepath = Written content
      ∧ save_student_profile record filepath fs
        = (Ok record, <[filepath := content]> fs).
Proof.
  intros Hl Hok.
  destruct (truthy (dict_get (py "email") record)) eqn:He.
  - rewrite (save_writes_upsert _ _ _ _ He Hl) in Hok |- *.
    destruct (to_csv (upsert record df) filepath) as [content|e [left|]];
      cbn [fst] in Hok; [|done..].
    injection Hok as <-. split; [done|]. split; [done|]. by exists content.
  - unfold save_student_profile in Hok. rewrite Hl, He in Hok. done.
Qed.

(** X16: a call of save_student_profile never touches a file other than
    the one at the given path.  When it returns, it returns the record
    it was given, after to_csv has written the frame, and the file at
    the path holds what to_csv wrote.  When it raises, all the files are
    as they were, unless it was to_csv that raised after it had opened
    the file, which then holds what to_csv left in it. *)
Theorem save_student_profile_writes_one_file (record : list (str * pyval))
    (filepath : string) (fs : files) :
  let out := save_student_profile record filepath fs in
  (∀ p, p ≠ filepath → out.2 !! p = fs !! p)
  ∧ (∀ r, out.1 = Ok r →
       r = record
       ∧ ∃ df content, load_students record filepath fs = Ok df
           ∧ to_csv (upsert record df) filepath = Written content
           ∧ out.2 = <[filepath := content]> fs)
  ∧ (∀ e, out.1 = Raise e →
       out.2 = fs
       ∨ ∃ df left, load_students record filepath fs = Ok df
           ∧ to_csv (upsert record df) filepath = WriteRaised e (Some left)
           ∧ out.2 = <[filepath := left]> fs).
Proof.
  intros out. unfold out. clear out.
  destruct (load_students record filepath fs) as [df|e0] eqn:Hl.
  - destruct (truthy (dict_get (py "email") record)) eqn:He.
    + rewrite (save_writes_upsert _ _ _ _ He Hl).
      destruct (to_csv (upsert record df) filepath) as [content|e1 [left|]] eqn:Hw;
        cbn [fst snd].
      * split; [intros p Hp; by apply lookup_insert_ne|].
        split; [|done]. intros r [= <-]. split; [done|]. by exists df, content.
      * split; [intros p Hp; by apply lookup_insert_ne|].
        split; [done|]. intros e [= <-]. right. by exists df, left.
      * split; [done|]. split; [done|]. intros e _. by left.
    + unfold save_student_profile. rewrite Hl, He. cbn [negb fst snd].
      split; [done|]. split; [done|]. intros e _. by left.
  - unfold save_student_profile. rewrite Hl. cbn [fst snd].
    split; [done|]. split; [done|]. intros e _. by left.
Qed.

(** X17: a save that succeeds writes a frame that keeps the columns of
    the loaded frame, in their order, and has a column for every key of
    the record; it has one row more than the loaded frame when the email
    was not in it, and as many rows when it was. *)
Theorem save_student_profile_shape (record : list (str * pyval))
    (filepath : string) (fs : files) (df : dataframe) :
  load_students record filepath fs = Ok df →
  (save_student_profile record filepath fs).1 = Ok record →
  ∃ df' content, to_csv df' filepath = Written content
    ∧ (save_student_profile record filepath fs).2 !! filepath = Some content
    ∧ df_columns df `prefix_of` df_columns df'
    ∧ Forall (λ k, k ∈ df_columns df') record.*1
    ∧ length (df_rows df')
      = if email_known (dict_get (py "email") record)
             (add_missing_columns record.*1 df)
        then length (df_rows df) else S (length (df_rows df)).
Proof.
  intros Hl Hok.
  destruct (save_returned _ _ _ _ _ Hl Hok) as (He & _ & content & Hw & ->).
  exists (upsert record df), content. cbn [snd].
  split; [done|]. split; [apply lookup_insert_eq|].
  destruct (upsert_columns record df) as [Hpre Hkeys].
  split; [done|]. split; [done|]. unfold upsert.
  destruct (email_known _ _).
  - by rewrite update_rows_rows, length_fmap, add_missing_columns_length.
  - unfold append_record. cbn [df_rows].
    rewrite length_app, add_missing_columns_length. cbn. lia.
Qed.

(** X18: after a save that succeeds, of a record whose keys are
    distinct, the written frame has a row with the email of the record,
    and every row with that email holds each value of the record under
    its key. *)
Theorem save_student_profile_record_stored (record : list (str * pyval))
    (filepath : string) (fs : files) (df : dataframe) :
  NoDup record.*1 →
  load_students record filepath fs = Ok df →
  (save_student_profile record filepath fs).1 = Ok record →
  let email := dict_get (py "email") record in
  ∃ df' content, to_csv df' filepath = Written content
    ∧ (save_student_profile record filepath fs).2 !! filepath = Some content
    ∧ (∃ r, r ∈ df_rows df' ∧ r !! py "email" = Some email)
    ∧ (∀ r, r ∈ df_rows df' → r !! py "email" = Some email →
         ∀ k v, (k, v) ∈ record → r !! k = Some v).
Proof.
  intros Hnd Hl Hok email.
  destruct (save_returned _ _ _ _ _ Hl Hok) as (He & _ & content & Hw & ->).
  exists (upsert record df), content. cbn [snd].
  split; [done|]. split; [apply lookup_insert_eq|]. by apply upsert_stored.
Qed.

(** X19: a save that succeeds keeps every row of the loaded frame that
    has another email at its place, with the cells of the columns that
    the loaded frame had. *)
Theorem save_student_profile_other_rows (record : list (str * pyval))
    (filepath : string) (fs : files) (df : dataframe) (i : nat) (r : gmap str pyval) :
  load_students record filepath fs = Ok df →
  (save_student_profile record filepath fs).1 = Ok record →
  df_rows df !! i = Some r →
  r !! py "email" ≠ Some (dict_get (py "email") record) →
  ∃ df' content r', to_csv df' filepath = Written content
    ∧ (save_student_profile record filepath fs).2 !! filepath = Some content
    ∧ df_rows df' !! i = Some r'
    ∧ ∀ k, k ∈ df_columns df → r' !! k = r !! k.
Proof.
  intros Hl Hok Hi Hr.
  destruct (save_returned _ _ _ _ _ Hl Hok) as (He & _ & content & Hw & ->).
  set (email := dict_get (py "email") record) in *.
  destruct (add_missing_columns_row record.*1 df i r Hi) as (r1 & Hi1 & Hcols & Hcells).
  assert (r1 !! py "email" ≠ Some email) as Hr1.
  { destruct (Hcells (py "email")) as [Hc|Hc]; rewrite Hc; [done|].
    intros [= Hemail]. rewrite <- Hemail in He. done. }
  exists (upsert record df), content, r1. cbn [snd].
  split; [done|]. split; [apply lookup_insert_eq|]. split; [|done].
  unfold upsert. fold email. destruct (email_known _ _).
  - rewrite update_rows_rows, list_lookup_fmap, Hi1. cbn.
    by rewrite update_row_other.
  - unfold append_record. cbn [df_rows]. by apply lookup_app_l_Some.
Qed.
End SaveProperties.

Section SaveFurther.
Context {CC : CsvCodec}.

(** X20: saving the same record again changes nothing more: when a
    save of a record with distinct keys has succeeded, and the file it
    wrote is not empty and is read back as the frame that was written, a
    second save of the record returns the record and leaves the files as
    the first save left them. *)
Theorem save_student_profile_twice (record : list (str * pyval))
    (filepath : string) (fs : files) (df : dataframe) (content : list Byte.byte) :
  truthy (dict_get (py "email") record) = true →
  NoDup record.*1 →
  load_students record filepath fs = Ok df →
  to_csv (upsert record df) filepath = Written content →
  content ≠ [] →
  read_csv content = Ok (upsert record df) →
  let fs1 := (save_student_profile record filepath fs).2 in
  (save_student_profile record filepath fs).1 = Ok record
  ∧ save_student_profile record filepath fs1 = (Ok record, fs1).
Proof.
  intros He Hnd Hl Hw Hne Hread fs1. unfold fs1.
  rewrite (save_written _ _ _ _ _ He Hl Hw). cbn [fst snd]. split; [done|].
  rewrite (save_written _ _ _ (upsert record df) content He).
  - by rewrite insert_insert_eq.
  - unfold load_students. rewrite lookup_insert_eq.
    destruct content as [|b content]; [done|]. exact Hread.
  - by rewrite upsert_idempotent.
Qed.

(** X21: the first save, when there is no file at the path or an empty
    one, of a record with distinct keys and an email, hands to_csv a
    frame whose columns are the keys of the record, in their order, and
    whose only row is the record; when to_csv writes it, the save returns
    the record and the file holds what was written, and when to_csv
    raises, the save raises the same. *)
Theorem save_student_profile_first (record : list (str * pyval))
    (filepath : string) (fs : files) :
  truthy (dict_get (py "email") record) = true →
  NoDup record.*1 →
  fs !! filepath = None ∨ fs !! filepath = Some [] →
  let first := {| df_columns := record.*1; df_rows := [list_to_map record] |} in
  (∀ content, to_csv first filepath = Written content →
     save_student_profile record filepath fs = (Ok record, <[filepath := content]> fs))
  ∧ (∀ e left, to_csv first filepath = WriteRaised e left →
       (save_student_profile record filepath fs).1 = Raise e).
Proof.
  intros He Hnd Hfile first.
  assert (load_students record filepath fs
          = Ok {| df_columns := record.*1; df_rows := [] |}) as Hl.
  { unfold load_students, fromkeys.
    rewrite fromkeys_aux_NoDup_id by (done || intros x _; apply not_elem_of_nil).
    by destruct Hfile as [->| ->]. }
  assert (upsert record {| df_columns := record.*1; df_rows := [] |} = first) as Hup.
  { unfold upsert. rewrite add_missing_columns_id by by apply Forall_forall.
    unfold email_known. cbn [df_rows existsb]. rewrite andb_false_r.
    unfold append_record, first. cbn [df_columns df_rows app]. f_equal.
    unfold fromkeys.
    rewrite fromkeys_aux_NoDup_id by (done || intros x _; apply not_elem_of_nil).
    by rewrite filter_not_in_nil, app_nil_r. }
  rewrite (save_writes_upsert _ _ _ _ He Hl), Hup. split.
  - by intros content ->.
  - intros e left ->. by destruct left.
Qed.

(** X22: the record that the application builds from the form has ten
    distinct keys and the stripped email under "email".  When the load
    of the student file succeeds: if the email typed is empty or only
    whitespace, saving the record raises the ValueError of the email
    check and writes nothing; otherwise the save hands the frame to
    to_csv, and it returns the record, with the file holding what was
    written, when to_csv writes it, and raises what to_csv raised when
    it does not. *)
Theorem build_student_record_then_save (name email education skills
    sector_interests location_pref experience : str) (is_rural : bool)
    (source now : str) (filepath : string) (fs : files) (df : dataframe) :
  let record := build_student_record_from_inputs name email education skills
                  sector_interests location_pref experience is_rural source now in
  load_students record filepath fs = Ok df →
  NoDup record.*1
  ∧ dict_get (py "email") record = PStr (strip email)
  ∧ (strip email = [] →
       save_student_profile record filepath fs
       = (Raise (Exception "ValueError"
                   "Record must contain an 'email' field to identify student."), fs))
  ∧ (strip email ≠ [] →
       (∀ content, to_csv (upsert record df) filepath = Written content →
          save_student_profile record filepath fs
          = (Ok record, <[filepath := content]> fs))
       ∧ (∀ e left, to_csv (upsert record df) filepath = WriteRaised e left →
            (save_student_profile record filepath fs).1 = Raise e
            ∧ (left = None → (save_student_profile record filepath fs).2 = fs))).
Proof.
  intros record Hl.
  assert (dict_get (py "email") record = PStr (strip email)) as Hmail by reflexivity.
  split; [|split; [done|split]].
  - unfold record, build_student_record_from_inputs. cbn [fmap list_fmap fst].
    apply (bool_decide_unpack _). vm_compute. exact I.
  - intros Hempty. unfold save_student_profile. rewrite Hl, Hmail.
    cbn [truthy]. by rewrite bool_decide_eq_true_2.
  - intros Hne.
    assert (truthy (dict_get (py "email") record) = true) as He.
    { rewrite Hmail. cbn [truthy]. by rewrite bool_decide_eq_false_2. }
    rewrite (save_writes_upsert _ _ _ _ He Hl). split.
    + by intros content ->.
    + intros e left ->. by destruct left.
Qed.
End SaveFurther.

(** ** The further properties on the sample data *)

Lemma safe_json_from_llm_keeps_items_witness :
  ∃ v, safe_json_from_llm (RE:=online) (py "Asha, B.Tech, Python") = Ok v
     ∧ ∃ d, json_loads (ResumeEnv:=online) (py "{}") = Ok (JDict d)
          ∧ v = JDict (d ++ ((λ k, (k, JStr [])) <$>
                               filter (λ k, has_key k d = false) profile_keys)).
Proof.
  assert (∃ v, safe_json_from_llm (RE:=online) (py "Asha, B.Tech, Python") = Ok v)
    as [v Hv] by (eexists; vm_compute; reflexivity).
  exists v. split; [exact Hv|].
  destruct (safe_json_from_llm_keeps_items (RE:=online) _ v Hv)
    as (raw & json_str & d & _ & _ & Hd & Hvd & _).
  exists d. split; [exact Hd|exact Hvd].
Defined.

Lemma safe_json_from_llm_raises_witness :
  safe_json_from_llm (RE:=offline) (py "Asha, B.Tech, Python")
  = Raise (Exception "RuntimeError" "GROQ_API_KEY not set in environment.")
  ∧ ∃ msg, safe_json_from_llm (RE:=garbled) (py "Asha, B.Tech, Python")
           = Raise (Exception "ValueError" msg).
Proof.
  split.
  - exact (proj1 (proj2 (safe_json_from_llm_raises (RE:=offline)
                           (py "Asha, B.Tech, Python"))) eq_refl).
  - exact (proj1 (proj2 (proj2 (proj2 (proj2 (proj2
             (safe_json_from_llm_raises (RE:=garbled) (py "Asha, B.Tech, Python")))
             eq_refl)) _ eq_refl) _ eq_refl) _ eq_refl).
Defined.

Lemma sample_record_email : truthy (dict_get (py "email") sample_record) = true.
Proof. reflexivity. Qed.

Lemma sample_record_keys : NoDup sample_record.*1.
Proof. apply (bool_decide_unpack _). vm_compute. exact I. Qed.

Lemma sample_first_load :
  load_students (CC:=strict_codec) sample_record "students.csv" ∅
  = Ok {| df_columns := sample_record.*1; df_rows := [] |}.
Proof. reflexivity. Qed.

Lemma sample_first_save :
  (save_student_profile (CC:=strict_codec) sample_record "students.csv" ∅).1
  = Ok sample_record.
Proof. reflexivity. Qed.

Lemma save_student_profile_shape_witness :
  (save_student_profile (CC:=strict_codec) sample_record "students.csv" ∅).1
  = Ok sample_record
  ∧ ∃ df' content, to_csv (CsvCodec:=strict_codec) df' "students.csv" = Written content
         ∧ (save_student_profile (CC:=strict_codec) sample_record "students.csv" ∅).2
           !! "students.csv"%string = Some content
         ∧ length (df_rows df') = 1%nat.
Proof.
  split; [exact sample_first_save|].
  destruct (save_student_profile_shape (CC:=strict_codec) sample_record "students.csv"
              ∅ _ sample_first_load sample_first_save)
    as (df' & content & Hw & Hfile & _ & _ & Hlen).
  exists df', content. split; [exact Hw|]. split; [exact Hfile|].
  rewrite Hlen. reflexivity.
Defined.

Lemma save_student_profile_record_stored_witness :
  (save_student_profile (CC:=strict_codec) sample_record "students.csv" ∅).1
  = Ok sample_record
  ∧ NoDup sample_record.*1
  ∧ ∃ df' content r,
      to_csv (CsvCodec:=strict_codec) df' "students.csv" = Written content
      ∧ (save_student_profile (CC:=strict_codec) sample_record "students.csv" ∅).2
        !! "students.csv"%string = Some content
      ∧ r ∈ df_rows df'
      ∧ r !! py "email" = Some (PStr (py "asha@example.com")).
Proof.
  split; [exact sample_first_save|]. split; [exact sample_record_keys|].
  destruct (save_student_profile_record_stored (CC:=strict_codec) sample_record
              "students.csv" ∅ _ sample_record_keys sample_first_load
              sample_first_save) as (df' & content & Hw & Hfile & (r & Hr & Hm) & _).
  exists df', content, r. split; [exact Hw|]. split; [exact Hfile|].
  split; [exact Hr|exact Hm].
Defined.

Lemma other_record_email : truthy (dict_get (py "email") other_record) = true.
Proof. reflexivity. Qed.

Lemma other_record_load :
  load_students (CC:=fixed_codec) other_record "students.csv" one_student_file
  = Ok sample_frame.
Proof. reflexivity. Qed.

Lemma other_record_save :
  (save_student_profile (CC:=fixed_codec) other_record "students.csv"
     one_student_file).1 = Ok other_record.
Proof. reflexivity. Qed.

Lemma sample_row_other_email :
  (list_to_map sample_record : gmap str pyval) !! py "email"
  ≠ Some (dict_get (py "email") other_record).
Proof.
  rewrite (elem_of_list_to_map_1 sample_record (py "email")
             (PStr (py "asha@example.com")) sample_record_keys)
    by (right; left).
  intros H. injection H as H. vm_compute in H. discriminate H.
Qed.

Lemma save_student_profile_other_rows_witness :
  df_rows sample_frame !! 0%nat = Some (list_to_map sample_record)
  ∧ ∃ df' content r',
      to_csv (CsvCodec:=fixed_codec) df' "students.csv" = Written content
      ∧ (save_student_profile (CC:=fixed_codec) other_record "students.csv"
           one_student_file).2 !! "students.csv"%string = Some content
      ∧ df_rows df' !! 0%nat = Some r'
      ∧ r' !! py "name" = Some (PStr (py "Asha")).
Proof.
  split; [reflexivity|].
  destruct (save_student_profile_other_rows (CC:=fixed_codec) other_record
              "students.csv" one_student_file sample_frame 0
              (list_to_map sample_record) other_record_load other_record_save
              eq_refl sample_row_other_email)
    as (df' & content & r' & Hw & Hfile & Hr' & Hcells).
  exists df', content, r'. split; [exact Hw|]. split; [exact Hfile|].
  split; [exact Hr'|]. rewrite Hcells by (left).
  apply (elem_of_list_to_map_1 sample_record); [exact sample_record_keys|left].
Defined.

Lemma sample_upsert :
  upsert sample_record {| df_columns := sample_record.*1; df_rows := [] |} = sample_frame.
Proof. reflexivity. Qed.

Lemma sample_first_load_fixed :
  load_students (CC:=fixed_codec) sample_record "students.csv" ∅
  = Ok {| df_columns := sample_record.*1; df_rows := [] |}.
Proof. reflexivity. Qed.

Lemma save_student_profile_twice_witness :
  read_csv (CsvCodec:=fixed_codec) [Byte.x0a]
  = Ok (upsert sample_record {| df_columns := sample_record.*1; df_rows := [] |})
  ∧ save_student_profile (CC:=fixed_codec) sample_record "students.csv"
      (save_student_profile (CC:=fixed_codec) sample_record "students.csv" ∅).2
    = (Ok sample_record,
       (save_student_profile (CC:=fixed_codec) sample_record "students.csv" ∅).2).
Proof.
  assert (read_csv (CsvCodec:=fixed_codec) [Byte.x0a]
          = Ok (upsert sample_record {| df_columns := sample_record.*1; df_rows := [] |}))
    as Hread by (rewrite sample_upsert; reflexivity).
  split; [exact Hread|].
  apply (save_student_profile_twice (CC:=fixed_codec) sample_record "students.csv" ∅
           {| df_columns := sample_record.*1; df_rows := [] |} [Byte.x0a]
           sample_record_email sample_record_keys sample_first_load_fixed eq_refl);
    [discriminate|exact Hread].
Defined.

Lemma save_student_profile_first_witness :
  (∅ : files) !! "students.csv"%string = None
  ∧ save_student_profile (CC:=strict_codec) sample_record "students.csv" ∅
    = (Ok sample_record, {[ "students.csv"%string := [Byte.x0a] ]})
  ∧ (save_student_profile (CC:=strict_codec) sample_record "no_such_dir/students.csv" ∅).1
    = Raise (Exception "OSError" "Cannot save file into a non-existent directory").
Proof.
  assert ((∅ : files) !! "students.csv"%string = None) as Hnone by reflexivity.
  assert ((∅ : files) !! "no_such_dir/students.csv"%string = None) as Hnone' by reflexivity.
  split; [exact Hnone|]. split.
  - exact (proj1 (save_student_profile_first (CC:=strict_codec) sample_record
                    "students.csv" ∅ sample_record_email sample_record_keys
                    (or_introl Hnone)) _ eq_refl).
  - exact (proj2 (save_student_profile_first (CC:=strict_codec) sample_record
                    "no_such_dir/students.csv" ∅ sample_record_email sample_record_keys
                    (or_introl Hnone')) _ _ eq_refl).
Defined.

Lemma build_student_record_then_save_witness :
  (save_student_profile (CC:=strict_codec)
     (build_student_record_from_inputs (py "Asha") (py "   ") (py "B.Tech")
        (py "Python, SQL") (py "IT") (py "Pune") (py "Fresher") true
        (py "manual") (py "2025-01-01T00:00:00"))
     "students.csv" ∅).2 = ∅.
Proof.
  assert (∃ df, load_students (CC:=strict_codec)
                  (build_student_record_from_inputs (py "Asha") (py "   ") (py "B.Tech")
                     (py "Python, SQL") (py "IT") (py "Pune") (py "Fresher") true
                     (py "manual") (py "2025-01-01T00:00:00"))
                  "students.csv" ∅ = Ok df) as [df Hl]
    by (eexists; reflexivity).
  destruct (build_student_record_then_save (CC:=strict_codec) (py "Asha") (py "   ")
              (py "B.Tech") (py "Python, SQL") (py "IT") (py "Pune") (py "Fresher")
              true (py "manual") (py "2025-01-01T00:00:00") "students.csv" ∅ df Hl)
    as (_ & _ & Hblank & _).
  rewrite Hblank by reflexivity. reflexivity.
Defined.

(** ** _normalize_embeddings on the store *)

Section StoreEmbeddings.
Context {F : Type} {FO : FloatOps F}.

(** X23: on the store, _normalize_embeddings returns a new array that
    holds what the function computes from its argument; the assignment
    [norms[norms == 0] = 1.0] writes into an array of its own, so the
    argument and every other object that was in the store stay as they
    were. *)
Theorem normalize_embeddings_m_fresh (embs : positive) (a : list (list F)) (h : heap F) :
  h !! embs = Some (OMatrix a) →
  ∃ l h', _normalize_embeddings_m embs h = Some (l, h')
        ∧ h !! l = None
        ∧ h' !! l = Some (OMatrix (_normalize_embeddings a))
        ∧ h' !! embs = Some (OMatrix a)
        ∧ h ⊆ h'.
Proof.
  intros Ha.
  destruct (wp_normalize_embeddings_m embs a
              (λ l h', h !! l = None
                       ∧ h' !! l = Some (OMatrix (_normalize_embeddings a))
                       ∧ h ⊆ h') h Ha) as (l & h' & Hrun & Hl & Hl' & Hsub).
  { intros l h' Hsub Hl Hl'. done. }
  exists l, h'. split; [done|]. split; [done|]. split; [done|].
  split; [|done]. by eapply lookup_weaken.
Qed.
End StoreEmbeddings.

Lemma normalize_embeddings_m_fresh_witness :
  sample_store !! 2%positive = Some (OMatrix (embeddings sample_recommender))
  ∧ ∃ l h', _normalize_embeddings_m (FO:=exact_floats) 2 sample_store = Some (l, h')
          ∧ sample_store ⊆ h'.
Proof.
  assert (sample_store !! 2%positive = Some (OMatrix (embeddings sample_recommender)))
    as H by reflexivity.
  split; [exact H|].
  destruct (normalize_embeddings_m_fresh (FO:=exact_floats) 2 _ sample_store H)
    as (l & h' & Hrun & _ & _ & _ & Hsub).
  exists l, h'. split; [exact Hrun|exact Hsub].
Defined.
